(** * A shallow embedding of [deep_q_learning.py] (class [DQNAgent])

    Modelling conventions.

    - Python [int] is [Z]; Python [float] is idealised as an exact rational
      [Q] (rounding, infinities and NaN are outside the model).
    - A numpy array holding a batch of one row is modelled by that row, a
      [list Q]; [predict(state)[0]] is the row of predicted action values.
    - A raised Python exception is the [Raise] branch of [result]; the state
      reached at the moment of the exception is discarded, because an
      exception aborts the training run.
    - Everything outside the repository (the gym environment, Python's
      [random] module, the Keras numerical backend) is reached through the
      [Externals] interface and threads an abstract [World]. Of the Keras
      calls only [fit] is modelled as able to raise; building a network
      and predicting are taken to succeed, so statements about them hold
      for calls Keras accepts.
    - Calls to those collaborators are recorded in a log, so that "is not
      queried" and "no fit is issued" are statements about the log. *)

From Stdlib Require Import ZArith QArith List Bool Lia Lqa Permutation.
Import ListNotations.

Open Scope Z_scope.

(** ** Exceptions *)

Inductive exn : Type :=
| ValueError
| IndexError
| ZeroDivisionError.

Inductive result (A : Type) : Type :=
| Ok (a : A)
| Raise (e : exn).

Arguments Ok {A} a.
Arguments Raise {A} e.

(** ** [collections.deque] with a [maxlen] *)

Module Deque.

Record deque (A : Type) : Type := mk {
  maxlen : Z;
  items : list A
}.

Arguments mk {A} maxlen items.
Arguments maxlen {A} d.
Arguments items {A} d.

(** [deque(maxlen=n)]: a negative bound is rejected by the constructor. *)
Definition new {A : Type} (n : Z) : result (deque A) :=
  if n <? 0 then Raise ValueError else Ok (mk n []).

Definition len {A : Type} (d : deque A) : Z :=
  Z.of_nat (length (items d)).

(** [d.append(x)]: the item goes to the right end, and when the bound is
    exceeded one item is dropped from the left end. *)
Definition append {A : Type} (d : deque A) (x : A) : deque A :=
  let grown := items d ++ [x] in
  if maxlen d <? Z.of_nat (length grown)
  then mk (maxlen d) (tl grown)
  else mk (maxlen d) grown.

Definition extend {A : Type} (d : deque A) (xs : list A) : deque A :=
  fold_left append xs d.

(** Every prefix of a run of appends, as the deque reached after it. *)
Definition history {A : Type} (d : deque A) (xs : list A) (n : nat)
  : deque A :=
  extend d (firstn n xs).

End Deque.

(** The last [n] elements of a list, in order. *)
Definition lastn {A : Type} (n : nat) (l : list A) : list A :=
  skipn (length l - n) l.

(** ** Python built-ins and numpy helpers *)

Definition Qltb (x y : Q) : bool := negb (Qle_bool y x).

(** [max(a, b)] of the built-in: the first argument is kept unless the
    second is strictly greater. *)
Definition py_max (a b : Q) : Q := if Qltb a b then b else a.

(** [a % b] on integers: the sign follows the divisor. *)
Definition py_mod (a b : Z) : result Z :=
  if b =? 0 then Raise ZeroDivisionError else Ok (a mod b).

(** [np.max] on a one-dimensional array. *)
Definition np_max (l : list Q) : result Q :=
  match l with
  | [] => Raise ValueError
  | x :: xs => Ok (fold_left (fun m y => if Qltb m y then y else m) xs x)
  end.

(** [np.argmax] scan: [best]/[bi] are the running maximum and its index,
    [i] the index of the head of the remaining list. Only a strictly
    greater entry replaces the running maximum. *)
Fixpoint argmax_from (l : list Q) (i : Z) (best : Q) (bi : Z) : Z :=
  match l with
  | [] => bi
  | y :: ys =>
      if Qltb best y then argmax_from ys (i + 1) y i
      else argmax_from ys (i + 1) best bi
  end.

Definition np_argmax (l : list Q) : result Z :=
  match l with
  | [] => Raise ValueError
  | x :: xs => Ok (argmax_from xs 1 x 0)
  end.

(** Replace position [n] of a list. *)
Fixpoint set_nth {A : Type} (n : nat) (v : A) (l : list A) : list A :=
  match l, n with
  | [], _ => []
  | _ :: xs, O => v :: xs
  | x :: xs, S n' => x :: set_nth n' v xs
  end.

(** [arr[i] = v] on a one-dimensional array: a negative index counts from
    the end, an index outside [-len, len) raises. *)
Definition np_setitem (l : list Q) (i : Z) (v : Q) : result (list Q) :=
  let n := Z.of_nat (length l) in
  if (0 <=? i) && (i <? n) then Ok (set_nth (Z.to_nat i) v l)
  else if (- n <=? i) && (i <? 0) then Ok (set_nth (Z.to_nat (i + n)) v l)
  else Raise IndexError.

(** [np.reshape(x, [1, size])]: a size of -1 is inferred from the
    element count, so every array is accepted; any other size must be
    the element count. *)
Definition np_reshape_row (size : Z) (x : list Q) : result (list Q) :=
  if size =? -1 then Ok x
  else if Z.of_nat (length x) =? size then Ok x
  else Raise ValueError.


(** ** Keras layers *)

Inductive activation_fn : Type :=
| relu
| linear.

Record Dense : Type := mkDense {
  units : Z;
  input_dim : option Z;
  activation : activation_fn
}.

(** ** Collaborators outside the repository *)

Class Externals : Type := {
  (** state of the simulator and of every random generator *)
  World : Type;
  (** what [get_weights]/[set_weights] move between two networks *)
  Weights : Type;
  (** internal state of the Adam optimiser *)
  Optimizer : Type;
  (** [env.observation_space.shape[0]] and [env.action_space.n] *)
  observation_space_shape0 : Z;
  action_space_n : Z;
  (** [env.reset()], [env.step(a)], [env.action_space.sample()] *)
  env_reset : World -> list Q * World;
  env_step : Z -> World -> (list Q * Q * bool) * World;
  action_space_sample : World -> Z * World;
  (** [random.uniform(0, 1)] and the generator's [_randbelow(n)] *)
  random_uniform01 : World -> Q * World;
  randbelow : nat -> World -> nat * World;
  randbelow_lt : forall n w, (0 < n)%nat -> (fst (randbelow n w) < n)%nat;
  (** initial weights of a freshly built network, [Adam(lr=...)] *)
  initial_weights : list Dense -> World -> Weights * World;
  adam : Q -> Optimizer;
  (** one forward pass on one row *)
  forward : list Dense -> Weights -> list Q -> list Q;
  (** one [fit] call; Keras may refuse the data (it does so for an empty
      batch), and then nothing has been trained *)
  fit_call : list Dense -> Weights -> Optimizer ->
             list (list Q) -> list (list Q) -> Z -> Z -> Z ->
             World -> result ((Weights * Optimizer) * World)
}.

Inductive which_model : Type :=
| Online
| Target.

(** Calls that leave the agent, in the order they are made. *)
Inductive event : Type :=
| EvReset
| EvStep (action : Z)
| EvActionSample
| EvUniform
| EvRandomSample (k : Z)
| EvRandbelow (n : nat)
| EvPredict (m : which_model) (x : list Q)
| EvFit (xs ys : list (list Q)) (batch_size epochs initial_epoch : Z)
| EvSetWeights
| EvScalar (reward : Q) (step : Z).

Section Agent.

Context {E : Externals}.

(** A compiled [Sequential] model. *)
Record Sequential : Type := mkSequential {
  layers : list Dense;
  weights : Weights;
  optimizer : Optimizer
}.

(** One stored tuple [(state, action, reward, next_state, done)]. *)
Record Transition : Type := mkTransition {
  t_state : list Q;
  t_action : Z;
  t_reward : Q;
  t_next_state : list Q;
  t_done : bool
}.

Record DQNAgent : Type := mkAgent {
  state_size : Z;
  action_size : Z;
  experience_replay : Deque.deque Transition;
  gamma : Q;
  epsilon : Q;
  min_epsilon : Q;
  epsilon_decay : Q;
  learning_rate : Q;
  steps_update_target_model : Z;
  num_layers : Z;
  q_value_model : Sequential;
  target_model : Sequential;
  _last_100_rewards : Deque.deque Q
}.

(** Keyword arguments of the constructor. *)
Record init_args : Type := mkArgs {
  arg_gamma : Q;
  arg_epsilon : Q;
  arg_min_epsilon : Q;
  arg_epsilon_decay : Q;
  arg_learning_rate : Q;
  arg_experience_replay_size : Z;
  arg_steps_update_target_model : Z;
  arg_num_layers : Z
}.

Definition default_args : init_args :=
  mkArgs (95 # 100) 1 (1 # 100) (995 # 1000) (1 # 1000) 2000 32 3.

(** The running system: the agent object, the outside world, the log. *)
Record Sys : Type := mkSys {
  self : DQNAgent;
  world : World;
  log : list event
}.

(** ** State and exception monad *)

Definition M (A : Type) : Type := Sys -> result (A * Sys).

Definition ret {A : Type} (a : A) : M A := fun s => Ok (a, s).

Definition bind {A B : Type} (m : M A) (k : A -> M B) : M B :=
  fun s => match m s with
           | Ok (a, s') => k a s'
           | Raise e => Raise e
           end.

Definition raise {A : Type} (e : exn) : M A := fun _ => Raise e.

Definition lift {A : Type} (r : result A) : M A :=
  fun s => match r with
           | Ok a => Ok (a, s)
           | Raise e => Raise e
           end.

Definition gets {A : Type} (f : DQNAgent -> A) : M A :=
  fun s => Ok (f (self s), s).

Definition modify (f : DQNAgent -> DQNAgent) : M unit :=
  fun s => Ok (tt, mkSys (f (self s)) (world s) (log s)).

(** A call into the outside world, recorded in the log. *)
Definition call {A : Type} (e : event) (f : World -> A * World) : M A :=
  fun s => let (a, w) := f (world s) in
           Ok (a, mkSys (self s) w (log s ++ [e])).

Definition emit (e : event) : M unit :=
  fun s => Ok (tt, mkSys (self s) (world s) (log s ++ [e])).

(** A call into the outside world that may raise. *)
Definition call_fallible {A : Type} (e : event)
  (f : World -> result (A * World)) : M A :=
  fun s => match f (world s) with
           | Ok (a, w) => Ok (a, mkSys (self s) w (log s ++ [e]))
           | Raise x => Raise x
           end.

End Agent.

Declare Scope monad_scope.
Delimit Scope monad_scope with monad.
Notation "x <- m ;; k" := (bind m (fun x => k))
  (at level 61, m at next level, right associativity) : monad_scope.
Notation "m ;; k" := (bind m (fun _ => k))
  (at level 61, right associativity) : monad_scope.
Notation "' p <- m ;; k" := (bind m (fun x => match x with p => k end))
  (at level 61, p pattern, m at next level, right associativity)
  : monad_scope.

Section Methods.

Context {E : Externals}.

Local Open Scope monad_scope.

(** *** Field updates *)

Definition set_experience_replay (d : Deque.deque Transition) (a : DQNAgent)
  : DQNAgent :=
  mkAgent (state_size a) (action_size a) d (gamma a) (epsilon a)
          (min_epsilon a) (epsilon_decay a) (learning_rate a)
          (steps_update_target_model a) (num_layers a)
          (q_value_model a) (target_model a) (_last_100_rewards a).

Definition set_epsilon (e : Q) (a : DQNAgent) : DQNAgent :=
  mkAgent (state_size a) (action_size a) (experience_replay a) (gamma a) e
          (min_epsilon a) (epsilon_decay a) (learning_rate a)
          (steps_update_target_model a) (num_layers a)
          (q_value_model a) (target_model a) (_last_100_rewards a).

Definition set_q_value_model (m : Sequential) (a : DQNAgent) : DQNAgent :=
  mkAgent (state_size a) (action_size a) (experience_replay a) (gamma a)
          (epsilon a) (min_epsilon a) (epsilon_decay a) (learning_rate a)
          (steps_update_target_model a) (num_layers a)
          m (target_model a) (_last_100_rewards a).

Definition set_target_model (m : Sequential) (a : DQNAgent) : DQNAgent :=
  mkAgent (state_size a) (action_size a) (experience_replay a) (gamma a)
          (epsilon a) (min_epsilon a) (epsilon_decay a) (learning_rate a)
          (steps_update_target_model a) (num_layers a)
          (q_value_model a) m (_last_100_rewards a).

Definition set_last_100_rewards (d : Deque.deque Q) (a : DQNAgent)
  : DQNAgent :=
  mkAgent (state_size a) (action_size a) (experience_replay a) (gamma a)
          (epsilon a) (min_epsilon a) (epsilon_decay a) (learning_rate a)
          (steps_update_target_model a) (num_layers a)
          (q_value_model a) (target_model a) d.

(** *** [_build_model] *)

Definition hidden : Dense := mkDense 32 None relu.

Definition build_layers (state_size action_size num_layers : Z)
  : list Dense :=
  [mkDense 32 (Some state_size) relu; hidden; hidden; hidden]
  ++ (if num_layers =? 5 then [hidden; hidden] else [])
  ++ [mkDense action_size None linear].

Definition _build_model (state_size action_size num_layers : Z)
  (learning_rate : Q) (w : World) : Sequential * World :=
  let ls := build_layers state_size action_size num_layers in
  let (ws, w') := initial_weights ls w in
  (mkSequential ls ws (adam learning_rate), w').

(** *** [__init__] *)

Definition __init__ (args : init_args) (w : World) : result Sys :=
  let ssize := observation_space_shape0 in
  let asize := action_space_n in
  match Deque.new (arg_experience_replay_size args) with
  | Raise e => Raise e
  | Ok replay =>
      let (qm, w1) := _build_model ssize asize (arg_num_layers args)
                                   (arg_learning_rate args) w in
      let (tm, w2) := _build_model ssize asize (arg_num_layers args)
                                   (arg_learning_rate args) w1 in
      Ok (mkSys (mkAgent ssize asize replay (arg_gamma args)
                         (arg_epsilon args) (arg_min_epsilon args)
                         (arg_epsilon_decay args) (arg_learning_rate args)
                         (arg_steps_update_target_model args)
                         (arg_num_layers args) qm tm
                         (Deque.mk 100 []))
                w2 [])
  end.

(** *** Calls on the two networks *)

Definition model_of (m : which_model) (a : DQNAgent) : Sequential :=
  match m with
  | Online => q_value_model a
  | Target => target_model a
  end.

(** [model.predict(state)[0]] *)
Definition predict (m : which_model) (x : list Q) : M (list Q) :=
  net <- gets (model_of m) ;;
  emit (EvPredict m x) ;;
  ret (forward (layers net) (weights net) x).

(** [self.q_value_model.fit(xs, ys, batch_size=..., epochs=...,
    initial_epoch=...)] *)
Definition fit (xs ys : list (list Q)) (batch_size epochs initial_epoch : Z)
  : M unit :=
  net <- gets q_value_model ;;
  r <- call_fallible (EvFit xs ys batch_size epochs initial_epoch)
         (fit_call (layers net) (weights net) (optimizer net)
                   xs ys batch_size epochs initial_epoch) ;;
  modify (set_q_value_model
            (mkSequential (layers net) (fst r) (snd r))).

(** [self.target_model.set_weights(self.q_value_model.get_weights())] *)
Definition sync_target : M unit :=
  emit EvSetWeights ;;
  modify (fun a =>
    set_target_model
      (mkSequential (layers (target_model a)) (weights (q_value_model a))
                    (optimizer (target_model a))) a).

(** *** [_sample_action] *)

Definition _sample_action (state : list Q) : M Z :=
  u <- call EvUniform random_uniform01 ;;
  eps <- gets epsilon ;;
  if Qltb u eps then call EvActionSample action_space_sample
  else
    q_values <- predict Online state ;;
    lift (np_argmax q_values).

(** *** [_sample_batch] *)

(** [random.sample]'s selection loop over a private copy [pool] of the
    population: each round draws a live position, takes the element there
    and moves the last live element into the hole. ([random.sample]
    switches to rejection sampling of positions for large populations; that
    variant draws pairwise distinct positions as well and is not modelled
    separately.) *)
Fixpoint sample_pool {A : Type} (k : nat) (pool : list A) : M (list A) :=
  match k with
  | O => ret []
  | S k' =>
      match pool with
      | [] => raise ValueError
      | x0 :: _ =>
          j <- call (EvRandbelow (length pool)) (randbelow (length pool)) ;;
          rest <- sample_pool k'
                    (removelast (set_nth j (last pool x0) pool)) ;;
          ret (nth j pool x0 :: rest)
      end
  end.

(** [random.sample(population, k)] *)
Definition random_sample {A : Type} (population : list A) (k : Z)
  : M (list A) :=
  if (k <? 0) || (Z.of_nat (length population) <? k) then raise ValueError
  else emit (EvRandomSample k) ;; sample_pool (Z.to_nat k) population.

Definition _sample_batch (batch_size : Z) : M (list Transition) :=
  replay <- gets experience_replay ;;
  random_sample (Deque.items replay) batch_size.

(** *** [_replay] *)

(** The TD target of one transition (lines "if done ... else ..."). *)
Definition td_target (t : Transition) : M Q :=
  if t_done t then ret (t_reward t)
  else
    g <- gets gamma ;;
    q_next <- predict Target (t_next_state t) ;;
    m <- lift (np_max q_next) ;;
    ret (t_reward t + g * m)%Q.

(** The body of the loop over the minibatch, threading the two
    accumulators [states_in_batch] and [target_in_batch]. *)
Fixpoint replay_loop (minibatch : list Transition)
  (states_in_batch target_in_batch : list (list Q))
  : M (list (list Q) * list (list Q)) :=
  match minibatch with
  | [] => ret (states_in_batch, target_in_batch)
  | t :: rest =>
      target <- td_target t ;;
      target_f <- predict Online (t_state t) ;;
      target_f <- lift (np_setitem target_f (t_action t) target) ;;
      replay_loop rest (states_in_batch ++ [t_state t])
                       (target_in_batch ++ [target_f])
  end.

(** The assignment [self.epsilon = max(self.min_epsilon,
    self.epsilon*self.epsilon_decay)]. *)
Definition decay_epsilon (a : DQNAgent) : DQNAgent :=
  set_epsilon (py_max (min_epsilon a) (epsilon a * epsilon_decay a)%Q) a.

Definition _replay (batch_size step_number : Z) : M unit :=
  replay <- gets experience_replay ;;
  if Deque.len replay <=? batch_size then ret tt
  else
    minibatch <- _sample_batch batch_size ;;
    ' (states_in_batch, target_in_batch) <- replay_loop minibatch [] [] ;;
    fit states_in_batch target_in_batch batch_size
        (step_number + 1) step_number ;;
    modify decay_epsilon.

(** *** [_correct_state_size] *)

Definition _correct_state_size (state : list Q) : M (list Q) :=
  n <- gets state_size ;;
  lift (np_reshape_row n state).

(** *** [train_agent] *)

(** Local variables that live across iterations of the step loop. *)
Record locals : Type := mkLocals {
  state : list Q;
  reward_in_episode : Q;
  steps_till_update : Z;
  total_steps : Z
}.

Inductive flow : Type :=
| Next
| Break.

(** The test [steps_till_update % self.steps_update_target_model == 0]. *)
Definition sync_due (counter : Z) : M bool :=
  n <- gets steps_update_target_model ;;
  r <- lift (py_mod counter n) ;;
  ret (r =? 0).

(** The first half of an iteration: choose an action, execute it in the
    emulator, reshape the observation, and form the tuple to be stored. *)
Definition act (v : locals) : M Transition :=
  action <- _sample_action (state v) ;;
  ' (next_state, reward, done) <- call (EvStep action) (env_step action) ;;
  next_state <- _correct_state_size next_state ;;
  ret (mkTransition (state v) action reward next_state done).

(** [self.experience_replay.append(...)] *)
Definition with_transition (t : Transition) (s : Sys) : Sys :=
  mkSys (set_experience_replay
           (Deque.append (experience_replay (self s)) t) (self s))
        (world s) (log s).

Definition store (t : Transition) : M unit :=
  fun s => Ok (tt, with_transition t s).

(** One iteration of [for step in range(1, steps_per_episode)]. *)
Definition step_body (batch_size : Z) (v : locals) : M (flow * locals) :=
  t <- act v ;;
  let total := (reward_in_episode v + t_reward t)%Q in
  store t ;;
  if t_done t then
    ret (Break, mkLocals (t_next_state t) total
                         (steps_till_update v) (total_steps v))
  else
    _replay batch_size (total_steps v) ;;
    due <- sync_due (steps_till_update v) ;;
    counter <- (if due : bool then sync_target ;; ret 1
                else ret (steps_till_update v)) ;;
    ret (Next, mkLocals (t_next_state t) total
                        (counter + 1) (total_steps v + 1)).

Fixpoint step_loop (n : nat) (batch_size : Z) (v : locals) : M locals :=
  match n with
  | O => ret v
  | S n' =>
      ' (f, v') <- step_body batch_size v ;;
      match f with
      | Break => ret v'
      | Next => step_loop n' batch_size v'
      end
  end.

(** One iteration of the loop over episodes; the two counters are the only
    locals that survive it. *)
Definition episode (i steps_per_episode batch_size : Z)
  (counter total : Z) : M (Z * Z) :=
  s0 <- call EvReset env_reset ;;
  s0 <- _correct_state_size s0 ;;
  v <- step_loop (Z.to_nat (steps_per_episode - 1)) batch_size
         (mkLocals s0 0 counter total) ;;
  emit (EvScalar (reward_in_episode v) i) ;;
  modify (fun a =>
    set_last_100_rewards
      (Deque.append (_last_100_rewards a) (reward_in_episode v)) a) ;;
  ret (steps_till_update v, total_steps v).

Fixpoint episodes_loop (n : nat) (i steps_per_episode batch_size : Z)
  (counter total : Z) : M unit :=
  match n with
  | O => ret tt
  | S n' =>
      ' (counter', total') <- episode i steps_per_episode batch_size
                                counter total ;;
      episodes_loop n' (i + 1) steps_per_episode batch_size counter' total'
  end.

Definition train_agent (episodes steps_per_episode batch_size : Z) : M unit :=
  episodes_loop (Z.to_nat episodes) 1 steps_per_episode batch_size 1 1.

End Methods.

(** ** Vocabulary of the statements *)

(** A deque that respects its bound. *)
Definition bounded {A : Type} (d : Deque.deque A) : Prop :=
  0 <= Deque.maxlen d /\ Deque.len d <= Deque.maxlen d.

(** [m] is a largest entry of [l]. *)
Definition is_max (m : Q) (l : list Q) : Prop :=
  In m l /\ forall x, In x l -> (x <= m)%Q.

(** Position [i] holds a largest entry of [q], and every earlier entry is
    strictly smaller. *)
Definition first_argmax (i : Z) (q : list Q) : Prop :=
  0 <= i < Z.of_nat (length q)
  /\ (forall j, (j < length q)%nat ->
                (nth j q 0 <= nth (Z.to_nat i) q 0)%Q)
  /\ (forall j, (j < Z.to_nat i)%nat ->
                (nth j q 0 < nth (Z.to_nat i) q 0)%Q).

(** The position a Python index denotes in an array of length [n]. *)
Definition py_index (i : Z) (n : nat) : nat :=
  Z.to_nat (if i <? 0 then i + Z.of_nat n else i).

Definition index_ok (i : Z) (n : nat) : bool :=
  (- Z.of_nat n <=? i) && (i <? Z.of_nat n).

Definition is_nil {A : Type} (l : list A) : bool :=
  match l with
  | [] => true
  | _ => false
  end.

Section Vocabulary.

Context {E : Externals}.

(** A system that differs from [s] only by [evs] more log entries. *)
Definition logged (s : Sys) (evs : list event) : Sys :=
  mkSys (self s) (world s) (log s ++ evs).

(** What each network predicts for one row. *)
Definition online_q (a : DQNAgent) (x : list Q) : list Q :=
  forward (layers (q_value_model a)) (weights (q_value_model a)) x.

Definition target_q (a : DQNAgent) (x : list Q) : list Q :=
  forward (layers (target_model a)) (weights (target_model a)) x.

(** [y] is the TD target of [t]: the reward alone on a terminal
    transition, otherwise the reward plus gamma times a largest entry of
    the target network's prediction for the next state. *)
Definition td_value (a : DQNAgent) (t : Transition) (y : Q) : Prop :=
  if t_done t then y = t_reward t
  else exists m, is_max m (target_q a (t_next_state t))
                 /\ y = (t_reward t + gamma a * m)%Q.

(** [row] is the online prediction for the state of [t] with the entry of
    the taken action replaced by the TD target. *)
Definition fitted_row (a : DQNAgent) (t : Transition) (row : list Q)
  : Prop :=
  let q := online_q a (t_state t) in
  let i := py_index (t_action t) (length q) in
  length row = length q
  /\ td_value a t (nth i row 0%Q)
  /\ forall j, j <> i -> nth j row 0%Q = nth j q 0%Q.

(** A stored transition on which the loop of [_replay] raises nothing: its
    action indexes the online prediction and, unless it is terminal, the
    target prediction for its next state is not empty. *)
Definition replayable (a : DQNAgent) (t : Transition) : bool :=
  index_ok (t_action t) (length (online_q a (t_state t)))
  && (t_done t || negb (is_nil (target_q a (t_next_state t)))).

End Vocabulary.


(** ** Reading a log *)

(** For every [set_weights] in a log, the number of environment steps made
    before it. *)
Fixpoint sync_steps_from (l : list event) (steps : Z) : list Z :=
  match l with
  | [] => []
  | EvStep _ :: r => sync_steps_from r (steps + 1)
  | EvSetWeights :: r => steps :: sync_steps_from r steps
  | _ :: r => sync_steps_from r steps
  end.

Definition sync_steps (l : list event) : list Z := sync_steps_from l 0.

Definition is_fit (e : event) : bool :=
  match e with
  | EvFit _ _ _ _ _ => true
  | _ => false
  end.

(** Number of [fit] calls in a log. *)
Definition fit_count (l : list event) : nat := length (filter is_fit l).


(** ** A small concrete world

    A one-dimensional chain: the observation is the clock, every step pays
    reward 1, and the episode ends when the clock reaches [horizon]
    (never, when [horizon] is 0). The network is a counter of the [fit]
    calls it has seen and predicts [counter, 1, 1]; like Keras, its
    [fit] refuses an empty batch. *)

Module Toy.

Record world : Type := mkWorld {
  clock : nat;
  horizon : nat;
  seed : nat
}.

Definition toy_step (a : Z) (w : world)
  : (list Q * Q * bool) * world :=
  let c := S (clock w) in
  (([inject_Z (Z.of_nat c)], 1%Q, Nat.eqb c (horizon w)),
   mkWorld c (horizon w) (seed w)).

Definition toy_randbelow (n : nat) (w : world) : nat * world :=
  (Nat.modulo (seed w) n, mkWorld (clock w) (horizon w) (S (seed w))).

Definition toy_randbelow_lt (n : nat) (w : world) (Hn : (0 < n)%nat)
  : (fst (toy_randbelow n w) < n)%nat :=
  Nat.mod_upper_bound (seed w) n (not_eq_sym (Nat.lt_neq 0 n Hn)).

#[local] Instance externals : Externals := {|
  World := world;
  Weights := Z;
  Optimizer := unit;
  observation_space_shape0 := 1;
  action_space_n := 3;
  env_reset := fun w => ([0%Q], mkWorld 0 (horizon w) (seed w));
  env_step := toy_step;
  action_space_sample := fun w => (2, w);
  random_uniform01 := fun w => ((1 # 2)%Q, w);
  randbelow := toy_randbelow;
  randbelow_lt := toy_randbelow_lt;
  initial_weights := fun _ w => (0, w);
  adam := fun _ => tt;
  forward := fun _ ws _ => [inject_Z ws; 1%Q; 1%Q];
  fit_call := fun _ ws opt xs _ _ _ _ w =>
                match xs with
                | [] => Raise ValueError
                | _ :: _ => Ok ((ws + 1, opt), w)
                end
|}.

(** The agent built with default arguments except the listed ones. *)
Definition args (eps min_eps decay : Q) (capacity sync : Z) : init_args :=
  mkArgs (95 # 100) eps min_eps decay (1 # 1000) capacity sync 3.

Definition start (horizon : nat) : World := mkWorld 0 horizon 0.

(** Construct, then train; the final system or the exception. *)
Definition run (a : init_args) (horizon : nat)
  (episodes steps_per_episode batch_size : Z) : result Sys :=
  match __init__ a (start horizon) with
  | Raise e => Raise e
  | Ok s =>
      match train_agent episodes steps_per_episode batch_size s with
      | Raise e => Raise e
      | Ok (_, s') => Ok s'
      end
  end.

(** The same, as total functions: [blank] stands in for a run that
    raised. *)
Definition blank : Sys :=
  let net := mkSequential [] 0 tt in
  mkSys (mkAgent 1 3 (Deque.mk 0 []) 0 0 0 0 0 1 3 net net (Deque.mk 100 []))
        (start 0) [].

Definition boot (a : init_args) (horizon : nat) : Sys :=
  match __init__ a (start horizon) with
  | Ok s => s
  | Raise _ => blank
  end.

Definition after (a : init_args) (horizon : nat)
  (episodes steps_per_episode batch_size : Z) : Sys :=
  match run a horizon episodes steps_per_episode batch_size with
  | Ok s => s
  | Raise _ => blank
  end.

(** An agent with the default hyper-parameters, and one whose epsilon
    and floor are negative. *)
Definition default_agent : DQNAgent :=
  self (boot (args 1 (1 # 100) (995 # 1000) 2000 32) 0).

Definition negative_agent : DQNAgent :=
  self (boot (args (-1) (-1) (1 # 2) 2000 32) 0).

(** A system whose buffer holds three transitions and that has not
    learned yet, and the outcome of one update on it with batch size 2. *)
Definition warm : Sys :=
  after (args (1 # 4) (1 # 100) (995 # 1000) 2000 32) 0 1 4 5.

Definition replayed : Sys :=
  match _replay 2 7 warm with
  | Ok (_, s) => s
  | Raise _ => blank
  end.

(** The first step of an episode whose very first transition is
    terminal. *)
Definition first_locals : locals := mkLocals [0%Q] 0 1 1.



Definition run_log (a : init_args) (horizon : nat)
  (episodes steps_per_episode batch_size : Z) : list event :=
  match run a horizon episodes steps_per_episode batch_size with
  | Ok s => log s
  | Raise _ => []
  end.

End Toy.

(** ** [test_agent] *)

(** [env.render()] and [env.close()], used by [test_agent] only. They act
    on the world and leave no entry in the log. *)
Class Display {E : Externals} : Type := {
  env_render : World -> World;
  env_close : World -> World
}.

Section Testing.

Context {E : Externals} {D : Display}.

Local Open Scope monad_scope.

Definition render : M unit :=
  fun s => Ok (tt, mkSys (self s) (env_render (world s)) (log s)).

Definition close : M unit :=
  fun s => Ok (tt, mkSys (self s) (env_close (world s)) (log s)).

(** The body of [while not done]: reshape, take the greedy action, step,
    render. It yields the next observation and the [done] flag. *)
Definition test_body (state : list Q) : M (list Q * bool) :=
  state <- _correct_state_size state ;;
  q_values <- predict Online state ;;
  action <- lift (np_argmax q_values) ;;
  ' (next_state, _, done) <- call (EvStep action) (env_step action) ;;
  render ;;
  ret (next_state, done).

(** [while not done]: the loop has no bound in the source, so the model
    takes the number of iterations it may make; [None] is a loop that is
    still running when they are used up. *)
Fixpoint test_while (fuel : nat) (state : list Q) (s : Sys)
  : option (result (unit * Sys)) :=
  match fuel with
  | O => None
  | S fuel' =>
      match test_body state s with
      | Raise e => Some (Raise e)
      | Ok ((next_state, done), s') =>
          if done : bool then Some (Ok (tt, s'))
          else test_while fuel' next_state s'
      end
  end.

(** [for _ in range(episodes)]; every episode gets [fuel] iterations. *)
Fixpoint test_episodes (fuel n : nat) (s : Sys)
  : option (result (unit * Sys)) :=
  match n with
  | O => Some (Ok (tt, s))
  | S n' =>
      match call EvReset env_reset s with
      | Raise e => Some (Raise e)
      | Ok (state, s1) =>
          match test_while fuel state s1 with
          | Some (Ok (_, s2)) => test_episodes fuel n' s2
          | other => other
          end
      end
  end.

Definition test_agent (fuel : nat) (episodes : Z) (s : Sys)
  : option (result (unit * Sys)) :=
  match test_episodes fuel (Z.to_nat episodes) s with
  | Some (Ok (_, s')) => Some (close s')
  | other => other
  end.

End Testing.

(** ** More vocabulary *)

(** The counter update of a non-terminal iteration of [train_agent]:
    [if c % n == 0: c = 1], then [c += 1]. *)
Definition next_counter (n c : Z) : Z :=
  (if c mod n =? 0 then 1 else c) + 1.

Definition is_step (e : event) : bool :=
  match e with
  | EvStep _ => true
  | _ => false
  end.

Definition is_reset (e : event) : bool :=
  match e with
  | EvReset => true
  | _ => false
  end.

Definition is_explore (e : event) : bool :=
  match e with
  | EvUniform => true
  | EvActionSample => true
  | _ => false
  end.

(** Events a learning update may log before its [fit]. *)
Definition is_sampling (e : event) : bool :=
  match e with
  | EvRandomSample _ => true
  | EvRandbelow _ => true
  | EvPredict _ _ => true
  | _ => false
  end.

(** Events an iteration of the step loop may log after its environment
    step. *)
Definition is_update (e : event) : bool :=
  match e with
  | EvRandomSample _ => true
  | EvRandbelow _ => true
  | EvPredict _ _ => true
  | EvFit _ _ _ _ _ => true
  | EvSetWeights => true
  | _ => false
  end.

(** Events an iteration of the step loop may log at all. *)
Definition is_in_step (e : event) : bool :=
  match e with
  | EvReset => false
  | EvScalar _ _ => false
  | _ => true
  end.

(** Events a test run may log. *)
Definition is_test_event (e : event) : bool :=
  match e with
  | EvReset => true
  | EvPredict Online _ => true
  | EvStep _ => true
  | _ => false
  end.

Definition is_target_predict (e : event) : bool :=
  match e with
  | EvPredict Target _ => true
  | _ => false
  end.

Definition is_online_predict (e : event) : bool :=
  match e with
  | EvPredict Online _ => true
  | _ => false
  end.

Definition count (p : event -> bool) (l : list event) : nat :=
  length (filter p l).

(** The episode indices under which rewards were reported. *)
Definition scalar_steps (l : list event) : list Z :=
  flat_map (fun e => match e with
                     | EvScalar _ i => [i]
                     | _ => []
                     end) l.



(** The log of [n] consecutive episodes, the first with index [i]: each
    is a reset, then events of the step loop with at most [cap]
    environment steps among them, then the reward reported under the
    episode's index. *)
Fixpoint episodes_logged (cap : nat) (i : Z) (n : nat) (evs : list event)
  : Prop :=
  match n with
  | O => evs = []
  | S n' =>
      exists body r rest,
        evs = EvReset :: body ++ EvScalar r i :: rest
        /\ forallb is_in_step body = true
        /\ (count is_step body <= cap)%nat
        /\ episodes_logged cap (i + 1) n' rest
  end.

Section MoreVocabulary.

Context {E : Externals}.

(** [s'] has the log of [s] followed by events that all satisfy [p]. *)
Definition extends (p : event -> bool) (s s' : Sys) : Prop :=
  exists evs, log s' = log s ++ evs /\ forallb p evs = true.

(** Everything of an agent that training is not meant to touch: the
    hyper-parameters, the two architectures, the two capacities. *)
Definition same_config (a a' : DQNAgent) : Prop :=
  state_size a' = state_size a
  /\ action_size a' = action_size a
  /\ gamma a' = gamma a
  /\ min_epsilon a' = min_epsilon a
  /\ epsilon_decay a' = epsilon_decay a
  /\ learning_rate a' = learning_rate a
  /\ steps_update_target_model a' = steps_update_target_model a
  /\ num_layers a' = num_layers a
  /\ layers (q_value_model a') = layers (q_value_model a)
  /\ layers (target_model a') = layers (target_model a)
  /\ Deque.maxlen (experience_replay a')
     = Deque.maxlen (experience_replay a)
  /\ Deque.maxlen (_last_100_rewards a')
     = Deque.maxlen (_last_100_rewards a).

(** Both deques of the agent respect their bounds. *)
Definition buffers_bounded (a : DQNAgent) : Prop :=
  bounded (experience_replay a) /\ bounded (_last_100_rewards a).

(** Configuration kept, and bounds kept if they held. *)
Definition keeps_frame (s s' : Sys) : Prop :=
  same_config (self s) (self s')
  /\ (buffers_bounded (self s) -> buffers_bounded (self s')).

(** Epsilon of [s'] is epsilon of [s] decayed once per [fit] logged in
    between; floor and rate are the same. *)
Definition decayed_per_fit (s s' : Sys) : Prop :=
  exists evs,
    log s' = log s ++ evs
    /\ min_epsilon (self s') = min_epsilon (self s)
    /\ epsilon_decay (self s') = epsilon_decay (self s)
    /\ epsilon (self s')
       = epsilon (Nat.iter (fit_count evs) decay_epsilon (self s)).

(** With a replay buffer no larger than the batch size, nothing is ever
    learned: no fit, same epsilon, same online network. *)
Definition learns_nothing (bs : Z) (s s' : Sys) : Prop :=
  bounded (experience_replay (self s)) ->
  Deque.maxlen (experience_replay (self s)) <= bs ->
  bounded (experience_replay (self s'))
  /\ Deque.maxlen (experience_replay (self s'))
     = Deque.maxlen (experience_replay (self s))
  /\ fit_count (log s') = fit_count (log s)
  /\ epsilon (self s') = epsilon (self s)
  /\ q_value_model (self s') = q_value_model (self s).

End MoreVocabulary.

(** ** More concrete worlds *)

Module ToyDisplay.

#[local] Existing Instance Toy.externals.

#[local] Instance display : Display := {|
  env_render := fun w => w;
  env_close := fun w => Toy.mkWorld 0 0 (Toy.seed w)
|}.

(** An agent trained for two episodes of at most three steps in a world
    whose episodes end at the third step. *)
Definition trained : Sys :=
  Toy.after (Toy.args (1 # 4) (1 # 100) (995 # 1000) 2000 32) 3 2 4 1.

(** An agent whose synchronisation interval is 0, and the outcome of
    its first action in a world that never ends an episode. *)
Definition zero_sync : Sys :=
  Toy.boot (Toy.args (1 # 4) (1 # 100) (995 # 1000) 2000 0) 0.

Definition zero_acted : Transition * Sys :=
  match act Toy.first_locals zero_sync with
  | Ok r => r
  | Raise _ => (mkTransition [] 0 0 [] false, Toy.blank)
  end.




(** The trained agent after two test episodes, each allowed ten
    iterations. *)
Definition tested : Sys :=
  match test_agent 10 2 trained with
  | Some (Ok (_, s)) => s
  | _ => Toy.blank
  end.

(** The loop of [_replay] run over everything the warm buffer holds. *)
Definition looped : (list (list Q) * list (list Q)) * Sys :=
  match replay_loop (Deque.items (experience_replay (self Toy.warm)))
                    [] [] Toy.warm with
  | Ok r => r
  | Raise _ => (([], []), Toy.blank)
  end.


End ToyDisplay.

(** A world like [Toy] whose episodes never end. *)
Module Endless.

Definition endless_step (a : Z) (w : Toy.world)
  : (list Q * Q * bool) * Toy.world :=
  (([inject_Z (Z.of_nat (S (Toy.clock w)))], 1%Q, false),
   Toy.mkWorld (S (Toy.clock w)) (Toy.horizon w) (Toy.seed w)).

#[local] Instance externals : Externals := {|
  World := Toy.world;
  Weights := Z;
  Optimizer := unit;
  observation_space_shape0 := 1;
  action_space_n := 3;
  env_reset := fun w => ([0%Q], Toy.mkWorld 0 (Toy.horizon w) (Toy.seed w));
  env_step := endless_step;
  action_space_sample := fun w => (2, w);
  random_uniform01 := fun w => ((1 # 2)%Q, w);
  randbelow := Toy.toy_randbelow;
  randbelow_lt := Toy.toy_randbelow_lt;
  initial_weights := fun _ w => (0, w);
  adam := fun _ => tt;
  forward := fun _ ws _ => [inject_Z ws; 1%Q; 1%Q];
  fit_call := fun _ ws opt xs _ _ _ _ w =>
                match xs with
                | [] => Raise ValueError
                | _ :: _ => Ok ((ws + 1, opt), w)
                end
|}.

#[local] Instance display : Display := {|
  env_render := fun w => w;
  env_close := fun w => w
|}.

Definition fresh : Sys :=
  match __init__ (Toy.args (1 # 4) (1 # 100) (995 # 1000) 2000 32)
                 (Toy.mkWorld 0 0 0 : World) with
  | Ok s => s
  | Raise _ =>
      let net := mkSequential [] 0 tt in
      mkSys (mkAgent 1 3 (Deque.mk 0 []) 0 0 0 0 0 1 3 net net
                     (Deque.mk 100 []))
            (Toy.mkWorld 0 0 0 : World) []
  end.

End Endless.

(** * Properties *)

(** ** The helpers on small inputs *)

Example deque_evicts_oldest :
  Deque.items (Deque.extend (Deque.mk 3 []) [1; 2; 3; 4; 5]) = [3; 4; 5].
Proof. reflexivity. Qed.

Example deque_of_capacity_zero_stays_empty :
  Deque.items (Deque.extend (Deque.mk 0 []) [1; 2]) = [].
Proof. reflexivity. Qed.

Example argmax_takes_first_of_equal_maxima :
  np_argmax [1%Q; 3%Q; (6 # 2)%Q; 2%Q] = Ok 1.
Proof. reflexivity. Qed.

Example max_of_empty_array_raises : np_max [] = Raise ValueError.
Proof. reflexivity. Qed.

Example negative_index_counts_from_the_end :
  np_setitem [1%Q; 2%Q; 3%Q] (-1) 9%Q = Ok [1%Q; 2%Q; 9%Q].
Proof. reflexivity. Qed.

Example index_out_of_range_raises :
  np_setitem [1%Q; 2%Q; 3%Q] 3 9%Q = Raise IndexError.
Proof. reflexivity. Qed.

Example modulo_by_zero_raises : py_mod 4 0 = Raise ZeroDivisionError.
Proof. reflexivity. Qed.

Example builtin_max_keeps_first_on_ties :
  py_max (2 # 4) (1 # 2) = (2 # 4)%Q.
Proof. reflexivity. Qed.

(** Starting at 1 with decay 0.995 and floor 0.01, epsilon sits on the
    floor after 2000 updates. *)
Example epsilon_after_2000_updates :
  epsilon (Nat.iter 2000 decay_epsilon Toy.default_agent) = (1 # 100)%Q.
Proof. vm_compute. reflexivity. Qed.

(** ** Lists *)

Section ListFacts.

Context {A : Type}.

Lemma lastn_all (n : nat) (l : list A) :
  (length l <= n)%nat -> lastn n l = l.
Proof.
  intros H. unfold lastn.
  replace (length l - n)%nat with 0%nat by lia. reflexivity.
Qed.

Lemma lastn_length (n : nat) (l : list A) :
  length (lastn n l) = Nat.min n (length l).
Proof. unfold lastn. rewrite length_skipn. lia. Qed.

Lemma lastn_app_lastn (n : nat) (l xs : list A) :
  lastn n (lastn n l ++ xs) = lastn n (l ++ xs).
Proof.
  destruct (Nat.le_gt_cases (length l) n) as [Hle | Hgt].
  - now rewrite (lastn_all n l Hle).
  - unfold lastn at 1 3.
    rewrite !length_app, lastn_length.
    replace (Nat.min n (length l)) with n by lia.
    unfold lastn.
    rewrite !skipn_app, skipn_skipn, length_skipn.
    f_equal.
    + f_equal. lia.
    + f_equal. lia.
Qed.

Lemma lastn_snoc_full (n : nat) (l : list A) (x : A) :
  length l = n -> lastn n (l ++ [x]) = tl (l ++ [x]).
Proof.
  intros H. unfold lastn. rewrite length_app. simpl.
  replace (length l + 1 - n)%nat with 1%nat by lia.
  destruct (l ++ [x]); reflexivity.
Qed.

Lemma set_nth_length (n : nat) (v : A) (l : list A) :
  length (set_nth n v l) = length l.
Proof.
  revert n. induction l as [| x xs IH]; intros [| n]; simpl; auto.
Qed.

Lemma set_nth_same (n : nat) (v d : A) (l : list A) :
  (n < length l)%nat -> nth n (set_nth n v l) d = v.
Proof.
  revert n. induction l as [| x xs IH]; intros [| n] H; simpl in *;
    try lia; auto.
  apply IH. lia.
Qed.

Lemma set_nth_other (n m : nat) (v d : A) (l : list A) :
  n <> m -> nth m (set_nth n v l) d = nth m l d.
Proof.
  revert n m. induction l as [| x xs IH]; intros [| n] [| m] H; simpl;
    auto; try congruence.
Qed.

End ListFacts.

(** ** The bounded deque *)

Section DequeFacts.

Context {A : Type}.

Implicit Types (d : Deque.deque A) (x : A) (xs : list A).

Lemma append_maxlen d x :
  Deque.maxlen (Deque.append d x) = Deque.maxlen d.
Proof.
  unfold Deque.append. simpl.
  destruct (Deque.maxlen d <? _); reflexivity.
Qed.

Lemma append_items d x :
  bounded d ->
  Deque.items (Deque.append d x)
  = lastn (Z.to_nat (Deque.maxlen d)) (Deque.items d ++ [x]).
Proof.
  intros [H0 Hlen]. unfold Deque.len in Hlen. unfold Deque.append.
  cbv zeta.
  destruct (Z.ltb_spec (Deque.maxlen d)
              (Z.of_nat (length (Deque.items d ++ [x])))) as [Hlt | Hge];
    simpl.
  - rewrite length_app in Hlt. simpl in Hlt.
    symmetry. apply lastn_snoc_full. lia.
  - symmetry. apply lastn_all. lia.
Qed.

Lemma append_bounded d x : bounded d -> bounded (Deque.append d x).
Proof.
  intros Hb. pose proof (append_items d x Hb) as Hi.
  destruct Hb as [H0 Hlen].
  split; rewrite append_maxlen; [assumption |].
  unfold Deque.len. rewrite Hi, lastn_length. lia.
Qed.

Lemma extend_maxlen d xs :
  Deque.maxlen (Deque.extend d xs) = Deque.maxlen d.
Proof.
  unfold Deque.extend. revert d.
  induction xs as [| x xs IH]; intros d; simpl; [reflexivity |].
  rewrite IH. apply append_maxlen.
Qed.

Lemma extend_bounded d xs : bounded d -> bounded (Deque.extend d xs).
Proof.
  unfold Deque.extend. revert d.
  induction xs as [| x xs IH]; intros d Hb; simpl; [assumption |].
  apply IH, append_bounded, Hb.
Qed.

Lemma extend_items d xs :
  bounded d ->
  Deque.items (Deque.extend d xs)
  = lastn (Z.to_nat (Deque.maxlen d)) (Deque.items d ++ xs).
Proof.
  unfold Deque.extend. revert d.
  induction xs as [| x xs IH]; intros d Hb; simpl.
  - rewrite app_nil_r. symmetry. apply lastn_all.
    destruct Hb as [H0 Hlen]. unfold Deque.len in Hlen. lia.
  - rewrite IH by (apply append_bounded, Hb).
    rewrite append_maxlen, append_items by assumption.
    rewrite lastn_app_lastn, <- app_assoc. reflexivity.
Qed.

Lemma new_bounded (n : Z) d : Deque.new n = Ok d -> bounded d.
Proof.
  unfold Deque.new. destruct (Z.ltb_spec n 0) as [Hn | Hn];
    intros H; inversion H.
  split; unfold Deque.len; simpl; lia.
Qed.

End DequeFacts.

(** C4 (replay buffer, [deque(maxlen=C)] and [append]). A buffer created
    with capacity [C] and fed more than [C] transitions holds exactly the
    last [C] of them in append order, its size is [C], and after every
    prefix of the appends its size is at most [C]. [Deque.append] is a total
    function into deques: no append can fail. *)
Theorem replay_buffer_fifo {A : Type} (C : Z) (d : Deque.deque A)
  (xs : list A) :
  Deque.new C = Ok d ->
  C < Z.of_nat (length xs) ->
  Deque.len (Deque.extend d xs) = C
  /\ Deque.items (Deque.extend d xs) = lastn (Z.to_nat C) xs
  /\ forall n, Deque.len (Deque.history d xs n) <= C.
Proof.
  intros Hnew Hlen.
  pose proof (new_bounded C d Hnew) as Hb.
  assert (HC : Deque.maxlen d = C /\ Deque.items d = []).
  { unfold Deque.new in Hnew. destruct (C <? 0); inversion Hnew. auto. }
  destruct HC as [HC Hnil].
  assert (Hitems : Deque.items (Deque.extend d xs) = lastn (Z.to_nat C) xs).
  { rewrite extend_items by assumption. now rewrite HC, Hnil. }
  split; [| split].
  - unfold Deque.len. rewrite Hitems, lastn_length.
    destruct Hb as [H0 _]. lia.
  - exact Hitems.
  - intros n. unfold Deque.history.
    pose proof (extend_bounded d (firstn n xs) Hb) as [_ Hle].
    now rewrite extend_maxlen, HC in Hle.
Qed.

Lemma replay_buffer_fifo_witness :
  Deque.len (Deque.extend (Deque.mk 2 []) [10; 20; 30]) = 2
  /\ Deque.items (Deque.extend (Deque.mk 2 []) [10; 20; 30])
     = lastn (Z.to_nat 2) [10; 20; 30]
  /\ forall n, Deque.len (Deque.history (Deque.mk 2 []) [10; 20; 30] n) <= 2.
Proof.
  apply (replay_buffer_fifo 2 (Deque.mk 2 []) [10; 20; 30]).
  - reflexivity.
  - simpl. lia.
Defined.

(** ** Comparisons on rationals *)

Lemma Qltb_true (x y : Q) : Qltb x y = true <-> (x < y)%Q.
Proof.
  unfold Qltb. rewrite negb_true_iff.
  destruct (Qle_bool y x) eqn:Hb.
  - apply Qle_bool_iff in Hb. split; [discriminate |].
    intros H. exfalso. apply (Qlt_not_le _ _ H Hb).
  - split; [| reflexivity]. intros _.
    apply Qnot_le_lt. intros H. apply Qle_bool_iff in H. congruence.
Qed.

Lemma Qltb_false (x y : Q) : Qltb x y = false <-> (y <= x)%Q.
Proof.
  unfold Qltb. rewrite negb_false_iff. apply Qle_bool_iff.
Qed.

Lemma py_max_lower (a b : Q) : (a <= py_max a b)%Q.
Proof.
  unfold py_max. destruct (Qltb a b) eqn:Hc.
  - apply Qltb_true in Hc. now apply Qlt_le_weak.
  - apply Qle_refl.
Qed.

Lemma py_max_upper (a b c : Q) :
  (a <= c)%Q -> (b <= c)%Q -> (py_max a b <= c)%Q.
Proof. intros Ha Hb. unfold py_max. destruct (Qltb a b); assumption. Qed.

Lemma py_max_right (a b : Q) : (b <= py_max a b)%Q.
Proof.
  unfold py_max. destruct (Qltb a b) eqn:Hc.
  - apply Qle_refl.
  - now apply Qltb_false in Hc.
Qed.

(** ** Epsilon decay *)

Section DecayFacts.

Context {E : Externals}.

Lemma decay_iter_fields (a : DQNAgent) (n : nat) :
  min_epsilon (Nat.iter n decay_epsilon a) = min_epsilon a
  /\ epsilon_decay (Nat.iter n decay_epsilon a) = epsilon_decay a.
Proof.
  induction n as [| n [IHm IHd]]; simpl; auto.
Qed.

Lemma decay_epsilon_floor (a : DQNAgent) :
  (min_epsilon a <= epsilon (decay_epsilon a))%Q.
Proof. simpl. apply py_max_lower. Qed.

Lemma decay_epsilon_nonneg (a : DQNAgent) :
  (0 <= epsilon_decay a)%Q -> (0 <= epsilon a)%Q ->
  (0 <= epsilon (decay_epsilon a))%Q.
Proof.
  intros Hd He. simpl.
  apply Qle_trans with (epsilon a * epsilon_decay a)%Q.
  - now apply Qmult_le_0_compat.
  - apply py_max_right.
Qed.

Lemma decay_epsilon_le (a : DQNAgent) :
  (epsilon_decay a <= 1)%Q -> (min_epsilon a <= epsilon a)%Q ->
  (0 <= epsilon a)%Q ->
  (epsilon (decay_epsilon a) <= epsilon a)%Q.
Proof.
  intros Hd Hm He. simpl. apply py_max_upper; [assumption |].
  rewrite <- (Qmult_1_r (epsilon a)) at 2.
  rewrite !(Qmult_comm (epsilon a)).
  now apply Qmult_le_compat_r.
Qed.

Lemma decay_iter_invariant (a : DQNAgent) (n : nat) :
  (0 <= epsilon_decay a)%Q -> (min_epsilon a <= epsilon a)%Q ->
  (min_epsilon a <= epsilon (Nat.iter n decay_epsilon a))%Q
  /\ ((0 <= epsilon a)%Q -> (0 <= epsilon (Nat.iter n decay_epsilon a))%Q).
Proof.
  intros Hd Hm. induction n as [| n [IHm IH0]].
  - simpl. auto.
  - destruct (decay_iter_fields a n) as [Fm Fd].
    split.
    + change (Nat.iter (S n) decay_epsilon a)
        with (decay_epsilon (Nat.iter n decay_epsilon a)).
      rewrite <- Fm at 1. apply decay_epsilon_floor.
    + intros H0.
      change (Nat.iter (S n) decay_epsilon a)
        with (decay_epsilon (Nat.iter n decay_epsilon a)).
      apply decay_epsilon_nonneg; [now rewrite Fd | now apply IH0].
Qed.

(** C6, as amended. Along any number of applications of the decay
    assignment, with [0 <= epsilon_decay <= 1] and the initial epsilon at
    least [min_epsilon], epsilon never drops below [min_epsilon]; it is
    non-increasing provided the initial epsilon is also non-negative. *)
Theorem epsilon_decay_monotone (a : DQNAgent) (n : nat) :
  (0 <= epsilon_decay a)%Q -> (epsilon_decay a <= 1)%Q ->
  (min_epsilon a <= epsilon a)%Q ->
  (min_epsilon a <= epsilon (Nat.iter n decay_epsilon a))%Q
  /\ ((0 <= epsilon a)%Q ->
      (epsilon (Nat.iter (S n) decay_epsilon a)
       <= epsilon (Nat.iter n decay_epsilon a))%Q).
Proof.
  intros Hd0 Hd1 Hm.
  destruct (decay_iter_invariant a n Hd0 Hm) as [Im I0].
  destruct (decay_iter_fields a n) as [Fm Fd].
  split; [exact Im |].
  intros H0.
  change (Nat.iter (S n) decay_epsilon a)
    with (decay_epsilon (Nat.iter n decay_epsilon a)).
  apply decay_epsilon_le.
  - now rewrite Fd.
  - now rewrite Fm.
  - now apply I0.
Qed.

End DecayFacts.

Lemma epsilon_decay_monotone_witness :
  (min_epsilon Toy.default_agent
   <= epsilon (Nat.iter 3 decay_epsilon Toy.default_agent))%Q
  /\ (epsilon (Nat.iter 4 decay_epsilon Toy.default_agent)
      <= epsilon (Nat.iter 3 decay_epsilon Toy.default_agent))%Q.
Proof.
  set (a := Toy.default_agent).
  assert (H0 : (0 <= epsilon_decay a)%Q) by (vm_compute; discriminate).
  assert (H1 : (epsilon_decay a <= 1)%Q) by (vm_compute; discriminate).
  assert (Hm : (min_epsilon a <= epsilon a)%Q) by (vm_compute; discriminate).
  assert (He : (0 <= epsilon a)%Q) by (vm_compute; discriminate).
  destruct (epsilon_decay_monotone a 3 H0 H1 Hm) as [Hfloor Hmono].
  split; [exact Hfloor | exact (Hmono He)].
Defined.

(** C6, as stated, fails: an agent constructed with epsilon = -1,
    min_epsilon = -1 and epsilon_decay = 1/2 meets both stated conditions,
    and one decay raises epsilon from -1 to -1/2. *)
Lemma epsilon_decay_not_monotone :
  (0 <= epsilon_decay Toy.negative_agent)%Q
  /\ (epsilon_decay Toy.negative_agent <= 1)%Q
  /\ (min_epsilon Toy.negative_agent <= epsilon Toy.negative_agent)%Q
  /\ ~ (epsilon (Nat.iter 1 decay_epsilon Toy.negative_agent)
        <= epsilon (Nat.iter 0 decay_epsilon Toy.negative_agent))%Q.
Proof.
  repeat split; try (vm_compute; discriminate).
  intros H. vm_compute in H. apply H. reflexivity.
Qed.

(** ** [np.max], [np.argmax], item assignment *)

Lemma fold_max_spec (xs : list Q) (x : Q) :
  let m := fold_left (fun m y => if Qltb m y then y else m) xs x in
  (m = x \/ In m xs) /\ (x <= m)%Q /\ forall y, In y xs -> (y <= m)%Q.
Proof.
  revert x. induction xs as [| y ys IH]; intros x; simpl.
  - split; [now left | split; [apply Qle_refl | intros y []]].
  - destruct (Qltb x y) eqn:Hc.
    + destruct (IH y) as [Hin [Hle Hall]].
      apply Qltb_true in Hc.
      split; [| split].
      * right. destruct Hin as [-> | Hin]; [now left | now right].
      * eapply Qle_trans; [apply Qlt_le_weak, Hc | exact Hle].
      * intros z [<- | Hz]; [exact Hle | now apply Hall].
    + destruct (IH x) as [Hin [Hle Hall]].
      apply Qltb_false in Hc.
      split; [| split].
      * destruct Hin as [-> | Hin]; [now left | right; now right].
      * exact Hle.
      * intros z [<- | Hz]; [| now apply Hall].
        eapply Qle_trans; [exact Hc | exact Hle].
Qed.

Lemma np_max_is_max (l : list Q) (m : Q) : np_max l = Ok m -> is_max m l.
Proof.
  destruct l as [| x xs]; simpl; intros H; inversion H as [Hm].
  destruct (fold_max_spec xs x) as [Hin [Hle Hall]].
  split.
  - destruct Hin as [-> | Hin]; [now left | now right].
  - intros y [<- | Hy]; [exact Hle | now apply Hall].
Qed.

Lemma np_max_total (l : list Q) : l <> [] -> exists m, np_max l = Ok m.
Proof.
  destruct l as [| x xs]; [congruence |]. intros _. simpl. eauto.
Qed.

Lemma argmax_from_spec (l : list Q) :
  forall (p : list Q) (best : Q) (bi : nat),
    (bi < length p)%nat ->
    nth bi p 0%Q = best ->
    (forall j, (j < length p)%nat -> (nth j p 0 <= best)%Q) ->
    (forall j, (j < bi)%nat -> (nth j p 0 < best)%Q) ->
    first_argmax
      (argmax_from l (Z.of_nat (length p)) best (Z.of_nat bi)) (p ++ l).
Proof.
  induction l as [| y ys IH]; intros p best bi Hbi Hbest Hall Hbefore.
  - simpl. rewrite app_nil_r. unfold first_argmax.
    rewrite Nat2Z.id, Hbest. repeat split; try lia; assumption.
  - simpl.
    replace (Z.of_nat (length p) + 1) with (Z.of_nat (length (p ++ [y])))
      by (rewrite length_app; simpl; lia).
    replace (p ++ y :: ys) with ((p ++ [y]) ++ ys)
      by (rewrite <- app_assoc; reflexivity).
    destruct (Qltb best y) eqn:Hc.
    + apply Qltb_true in Hc.
      apply IH.
      * rewrite length_app. simpl. lia.
      * rewrite app_nth2 by lia. now rewrite Nat.sub_diag.
      * intros j Hj. rewrite length_app in Hj. simpl in Hj.
        destruct (Nat.eq_dec j (length p)) as [-> | Hne].
        -- rewrite app_nth2 by lia. rewrite Nat.sub_diag. apply Qle_refl.
        -- rewrite app_nth1 by lia.
           apply Qle_trans with best; [apply Hall; lia |].
           now apply Qlt_le_weak.
      * intros j Hj. rewrite app_nth1 by lia.
        eapply Qle_lt_trans; [apply Hall; lia | exact Hc].
    + apply Qltb_false in Hc.
      apply IH.
      * rewrite length_app. simpl. lia.
      * now rewrite app_nth1 by lia.
      * intros j Hj. rewrite length_app in Hj. simpl in Hj.
        destruct (Nat.eq_dec j (length p)) as [-> | Hne].
        -- rewrite app_nth2 by lia. now rewrite Nat.sub_diag.
        -- rewrite app_nth1 by lia. apply Hall. lia.
      * intros j Hj. rewrite app_nth1 by lia. now apply Hbefore.
Qed.

Lemma np_argmax_first (q : list Q) :
  q <> [] -> exists i, np_argmax q = Ok i /\ first_argmax i q.
Proof.
  destruct q as [| x xs]; [congruence |]. intros _.
  exists (argmax_from xs 1 x 0). split; [reflexivity |].
  apply (argmax_from_spec xs [x] x 0%nat).
  - simpl. lia.
  - reflexivity.
  - intros [| j] Hj; simpl in *; [apply Qle_refl | lia].
  - intros j Hj. lia.
Qed.

Lemma np_setitem_spec (l : list Q) (i : Z) (v : Q) :
  index_ok i (length l) = true ->
  np_setitem l i v = Ok (set_nth (py_index i (length l)) v l)
  /\ (py_index i (length l) < length l)%nat.
Proof.
  unfold index_ok, np_setitem, py_index. cbv zeta.
  intros H. apply andb_true_iff in H as [Hlo Hhi].
  apply Z.leb_le in Hlo. apply Z.ltb_lt in Hhi.
  destruct (Z.ltb_spec i 0) as [Hneg | Hpos].
  - replace (0 <=? i) with false by (symmetry; apply Z.leb_gt; lia).
    simpl.
    replace (- Z.of_nat (length l) <=? i) with true
      by (symmetry; apply Z.leb_le; lia).
    simpl. split; [reflexivity | lia].
  - replace (0 <=? i) with true by (symmetry; apply Z.leb_le; lia).
    replace (i <? Z.of_nat (length l)) with true
      by (symmetry; apply Z.ltb_lt; lia).
    simpl. split; [reflexivity | lia].
Qed.

Lemma np_setitem_ok (l r : list Q) (i : Z) (v : Q) :
  np_setitem l i v = Ok r ->
  index_ok i (length l) = true
  /\ r = set_nth (py_index i (length l)) v l.
Proof.
  intros H.
  destruct (index_ok i (length l)) eqn:Hi.
  - destruct (np_setitem_spec l i v Hi) as [Heq _].
    rewrite Heq in H. inversion H. auto.
  - exfalso. unfold index_ok in Hi. unfold np_setitem in H.
    cbv zeta in H.
    destruct (Z.leb_spec 0 i), (Z.ltb_spec i (Z.of_nat (length l))),
      (Z.leb_spec (- Z.of_nat (length l)) i), (Z.ltb_spec i 0);
      simpl in *; try discriminate; lia.
Qed.

(** ** Sampling without replacement *)

Section PoolFacts.

Context {A B : Type}.

Lemma set_nth_app1 (j : nat) (v : A) (l r : list A) :
  (j < length l)%nat -> set_nth j v (l ++ r) = set_nth j v l ++ r.
Proof.
  revert j. induction l as [| x xs IH]; intros [| j] H; simpl in *;
    try lia; auto.
  f_equal. apply IH. lia.
Qed.

Lemma set_nth_app2 (v x : A) (l : list A) :
  set_nth (length l) v (l ++ [x]) = l ++ [v].
Proof. induction l as [| y ys IH]; simpl; [reflexivity | now f_equal]. Qed.

Lemma set_nth_map (f : A -> B) (j : nat) (v : A) (l : list A) :
  set_nth j (f v) (map f l) = map f (set_nth j v l).
Proof.
  revert j. induction l as [| x xs IH]; intros [| j]; simpl; auto.
  now f_equal.
Qed.

Lemma last_map (f : A -> B) (l : list A) (d : A) :
  last (map f l) (f d) = f (last l d).
Proof.
  induction l as [| x xs IH]; [reflexivity |].
  destruct xs as [| y ys]; [reflexivity |]. exact IH.
Qed.

Lemma removelast_map (f : A -> B) (l : list A) :
  removelast (map f l) = map f (removelast l).
Proof.
  induction l as [| x xs IH]; [reflexivity |].
  destruct xs as [| y ys]; [reflexivity |].
  simpl in *. now f_equal.
Qed.

Lemma pick_perm (l : list A) (j : nat) (v d : A) :
  (j < length l)%nat ->
  Permutation (nth j l d :: set_nth j v l) (v :: l).
Proof.
  revert j. induction l as [| x xs IH]; intros [| j] H; simpl in *;
    try lia.
  - apply perm_swap.
  - eapply perm_trans; [apply perm_swap |].
    eapply perm_trans; [apply perm_skip, IH; lia |].
    apply perm_swap.
Qed.

(** One round of the selection loop removes exactly the drawn element
    from the live pool. *)
Lemma draw_perm (pool : list A) (j : nat) (d : A) :
  (j < length pool)%nat ->
  Permutation (nth j pool d :: removelast (set_nth j (last pool d) pool))
              pool.
Proof.
  intros Hj.
  assert (Hne : pool <> []) by (destruct pool; simpl in *; [lia | congruence]).
  destruct (exists_last Hne) as [init [l ->]].
  rewrite last_last. rewrite length_app in Hj. simpl in Hj.
  destruct (Nat.eq_dec j (length init)) as [-> | Hlt].
  - rewrite set_nth_app2, removelast_last, app_nth2 by lia.
    rewrite Nat.sub_diag. simpl. apply Permutation_cons_append.
  - rewrite set_nth_app1, removelast_last, app_nth1 by lia.
    eapply perm_trans; [apply pick_perm; lia |].
    apply Permutation_cons_append.
Qed.

End PoolFacts.

Section SamplingFacts.

Context {E : Externals}.

Lemma fit_count_app (l r : list event) :
  fit_count (l ++ r) = (fit_count l + fit_count r)%nat.
Proof. unfold fit_count. now rewrite filter_app, length_app. Qed.

Lemma sample_pool_spec {A : Type} (k : nat) :
  forall (pool : list A) (s : Sys),
    (k <= length pool)%nat ->
    exists batch rest s',
      sample_pool k pool s = Ok (batch, s')
      /\ self s' = self s
      /\ fit_count (log s') = fit_count (log s)
      /\ length batch = k
      /\ Permutation (batch ++ rest) pool.
Proof.
  induction k as [| k IH]; intros pool s Hk.
  - exists [], pool, s. simpl. unfold ret. auto.
  - destruct pool as [| x0 tl0] eqn:Hpool; [simpl in Hk; lia |].
    rewrite <- Hpool in *.
    assert (Hpos : (0 < length pool)%nat) by (rewrite Hpool; simpl; lia).
    pose proof (randbelow_lt (length pool) (world s) Hpos) as Hj.
    pose proof (draw_perm pool _ x0 Hj) as Hperm.
    set (j := fst (randbelow (length pool) (world s))) in *.
    set (pool' := removelast (set_nth j (last pool x0) pool)) in *.
    assert (Hlen' : (k <= length pool')%nat).
    { apply Permutation_length in Hperm. simpl in Hperm. lia. }
    set (s1 := mkSys (self s) (snd (randbelow (length pool) (world s)))
                     (log s ++ [EvRandbelow (length pool)])).
    destruct (IH pool' s1 Hlen') as (batch & rest & s' & Hrun & Hs & Hf & Hb & Hp).
    exists (nth j pool x0 :: batch), rest, s'.
    split; [| split; [| split; [| split]]].
    + rewrite Hpool. cbn [sample_pool]. rewrite <- Hpool.
      unfold bind, call.
      destruct (randbelow (length pool) (world s)) as [j0 w0] eqn:Hr.
      subst j pool' s1. simpl in Hrun. rewrite Hrun. reflexivity.
    + rewrite Hs. reflexivity.
    + rewrite Hf. subst s1. cbn [log]. rewrite fit_count_app.
      unfold fit_count at 2. simpl. lia.
    + simpl. now rewrite Hb.
    + simpl. eapply perm_trans; [apply perm_skip, Hp | exact Hperm].
Qed.

Lemma sample_pool_map {A B : Type} (f : A -> B) (k : nat) :
  forall (pool : list A) (s : Sys),
    sample_pool k (map f pool) s
    = match sample_pool k pool s with
      | Ok (b, s') => Ok (map f b, s')
      | Raise e => Raise e
      end.
Proof.
  induction k as [| k IH]; intros pool s; [reflexivity |].
  destruct pool as [| x0 tl0] eqn:Hpool; [reflexivity |].
  change (map f (x0 :: tl0)) with (f x0 :: map f tl0).
  cbn [sample_pool].
  change (f x0 :: map f tl0) with (map f (x0 :: tl0)).
  rewrite <- Hpool.
  unfold bind, call. rewrite length_map.
  destruct (randbelow (length pool) (world s)) as [j w'].
  rewrite last_map, set_nth_map, removelast_map, IH.
  destruct (sample_pool k _ _) as [[b s'] | e]; [| reflexivity].
  unfold ret. now rewrite map_nth.
Qed.

End SamplingFacts.

Lemma map_nth_seq {A : Type} (l : list A) (d : A) :
  map (fun i => nth i l d) (seq 0 (length l)) = l.
Proof.
  induction l as [| x xs IH]; [reflexivity |].
  simpl. rewrite <- seq_shift, map_map. simpl. now rewrite IH.
Qed.

Section SampleBatch.

Context {E : Externals}.

(** [batch] holds the elements of [pop] at the positions [idx]. *)
Lemma picked_positions {A : Type} (pop : list A) (d : A) (idx : list nat) :
  (forall i, In i idx -> (i < length pop)%nat) ->
  Forall2 (fun t i => nth_error pop i = Some t)
          (map (fun i => nth i pop d) idx) idx.
Proof.
  induction idx as [| i idx IH]; intros H; simpl; constructor.
  - apply nth_error_nth'. apply H. now left.
  - apply IH. intros j Hj. apply H. now right.
Qed.

Lemma random_sample_spec {A : Type} (pop : list A) (k : Z) (s : Sys) :
  0 <= k <= Z.of_nat (length pop) ->
  exists batch idx s',
    random_sample pop k s = Ok (batch, s')
    /\ self s' = self s
    /\ fit_count (log s') = fit_count (log s)
    /\ Z.of_nat (length batch) = k
    /\ NoDup idx
    /\ Forall2 (fun t i => nth_error pop i = Some t) batch idx
    /\ (forall t, In t batch -> In t pop).
Proof.
  intros Hk. unfold random_sample.
  replace ((k <? 0) || (Z.of_nat (length pop) <? k)) with false.
  2:{ symmetry. apply orb_false_iff. split; apply Z.ltb_ge; lia. }
  unfold bind, emit.
  set (s1 := mkSys (self s) (world s) (log s ++ [EvRandomSample k])).
  assert (Hfit1 : fit_count (log s1) = fit_count (log s)).
  { subst s1. cbn [log]. rewrite fit_count_app.
    unfold fit_count at 2. simpl. lia. }
  destruct pop as [| d pop0] eqn:Hpop.
  - assert (k = 0) by (simpl in Hk; lia). subst k.
    exists [], [], s1. simpl. unfold ret.
    repeat split; auto; try constructor.
  - rewrite <- Hpop in *.
    assert (Hn : (Z.to_nat k <= length (seq 0 (length pop)))%nat)
      by (rewrite length_seq; lia).
    destruct (sample_pool_spec (Z.to_nat k) (seq 0 (length pop)) s1 Hn)
      as (idx & rest & s' & Hrun & Hs & Hf & Hb & Hp).
    pose proof (sample_pool_map (fun i => nth i pop d) (Z.to_nat k)
                  (seq 0 (length pop)) s1) as Hmap.
    rewrite map_nth_seq, Hrun in Hmap.
    assert (Hin : forall i, In i idx -> (i < length pop)%nat).
    { intros i Hi.
      assert (Hi' : In i (seq 0 (length pop))).
      { eapply Permutation_in; [exact Hp |]. apply in_or_app. now left. }
      apply in_seq in Hi'. lia. }
    exists (map (fun i => nth i pop d) idx), idx, s'.
    split; [exact Hmap |].
    split; [now rewrite Hs |].
    split; [now rewrite Hf |].
    split; [rewrite length_map; lia |].
    split.
    { apply NoDup_app_remove_r with rest.
      eapply Permutation_NoDup; [symmetry; exact Hp | apply seq_NoDup]. }
    split; [now apply picked_positions |].
    intros t Ht. apply in_map_iff in Ht as [i [<- Hi]].
    apply nth_In. now apply Hin.
Qed.

Lemma random_sample_too_many {A : Type} (pop : list A) (k : Z) (s : Sys) :
  Z.of_nat (length pop) < k -> random_sample pop k s = Raise ValueError.
Proof.
  intros H. unfold random_sample.
  replace (Z.of_nat (length pop) <? k) with true
    by (symmetry; apply Z.ltb_lt; lia).
  now rewrite orb_true_r.
Qed.

(** C5 ([_sample_batch], i.e. [random.sample] on the replay buffer). With
    [0 < batch_size <= size] the call returns [batch_size] transitions
    taken from pairwise distinct positions of the current buffer contents
    and leaves the agent unchanged; with [batch_size > size] it raises the
    [ValueError] of [random.sample], the error the specification calls
    InsufficientDataError. *)
Theorem sample_batch_without_replacement (batch_size : Z) (s : Sys) :
  (0 < batch_size <= Deque.len (experience_replay (self s)) ->
   exists batch idx s',
     _sample_batch batch_size s = Ok (batch, s')
     /\ self s' = self s
     /\ Z.of_nat (length batch) = batch_size
     /\ NoDup idx
     /\ Forall2
          (fun t i =>
             nth_error (Deque.items (experience_replay (self s))) i = Some t)
          batch idx)
  /\ (Deque.len (experience_replay (self s)) < batch_size ->
      _sample_batch batch_size s = Raise ValueError).
Proof.
  unfold _sample_batch, bind, gets, Deque.len. split.
  - intros Hk.
    destruct (random_sample_spec
                (Deque.items (experience_replay (self s))) batch_size s)
      as (batch & idx & s' & Hrun & Hs & _ & Hlen & Hnd & Hpos & _);
      [lia |].
    exists batch, idx, s'. auto.
  - apply random_sample_too_many.
Qed.

End SampleBatch.

(** ** The learning update [_replay] *)

Section ReplayFacts.

Context {E : Externals}.

Lemma td_target_run (t : Transition) (s : Sys) :
  td_target t s
  = if t_done t then Ok (t_reward t, s)
    else match np_max (target_q (self s) (t_next_state t)) with
         | Ok m => Ok ((t_reward t + gamma (self s) * m)%Q,
                       logged s [EvPredict Target (t_next_state t)])
         | Raise e => Raise e
         end.
Proof.
  unfold td_target. destruct (t_done t); [reflexivity |].
  unfold bind, gets, predict, bind, gets, emit, ret, lift, target_q.
  simpl. destruct (np_max _); reflexivity.
Qed.

Lemma replay_loop_cons (t : Transition) (rest : list Transition)
  (xs ys : list (list Q)) (s : Sys) :
  replay_loop (t :: rest) xs ys s
  = match td_target t s with
    | Ok (y, s1) =>
        match np_setitem (online_q (self s1) (t_state t)) (t_action t) y with
        | Ok row =>
            replay_loop rest (xs ++ [t_state t]) (ys ++ [row])
                        (logged s1 [EvPredict Online (t_state t)])
        | Raise e => Raise e
        end
    | Raise e => Raise e
    end.
Proof.
  cbn [replay_loop]. unfold bind at 1.
  destruct (td_target t s) as [[y s1] | e]; [| reflexivity].
  unfold bind, predict, bind, gets, emit, ret, lift, online_q. simpl.
  destruct (np_setitem _ _ _); reflexivity.
Qed.

Lemma logged_fit_count (s : Sys) (evs : list event) :
  fit_count (log (logged s evs)) = (fit_count (log s) + fit_count evs)%nat.
Proof. unfold logged. cbn [log]. apply fit_count_app. Qed.

Lemma td_target_ok (t : Transition) (s s' : Sys) (y : Q) :
  td_target t s = Ok (y, s') ->
  self s' = self s /\ world s' = world s
  /\ fit_count (log s') = fit_count (log s)
  /\ td_value (self s) t y.
Proof.
  rewrite td_target_run. unfold td_value.
  destruct (t_done t).
  - intros H. inversion H. subst. auto.
  - destruct (np_max _) as [m | e] eqn:Hm; intros H; inversion H.
    subst. rewrite logged_fit_count.
    repeat split; [unfold fit_count; simpl; lia |].
    exists m. split; [now apply np_max_is_max | reflexivity].
Qed.

Lemma td_target_total (t : Transition) (s : Sys) :
  replayable (self s) t = true ->
  exists y s', td_target t s = Ok (y, s').
Proof.
  unfold replayable. intros H. apply andb_true_iff in H as [_ H].
  rewrite td_target_run. destruct (t_done t); [eauto |].
  simpl in H.
  destruct (np_max_total (target_q (self s) (t_next_state t))) as [m ->];
    [| eauto].
  destruct (target_q _ _); [discriminate | congruence].
Qed.

Lemma replay_loop_ok (mb : list Transition) :
  forall (xs ys : list (list Q)) (s s' : Sys) r,
    replay_loop mb xs ys s = Ok (r, s') ->
    self s' = self s /\ world s' = world s
    /\ fit_count (log s') = fit_count (log s)
    /\ exists rows,
         r = (xs ++ map t_state mb, ys ++ rows)
         /\ Forall2 (fitted_row (self s)) mb rows.
Proof.
  induction mb as [| t rest IH]; intros xs ys s s' r H.
  - inversion H. subst. rewrite !app_nil_r.
    repeat split. exists []. rewrite app_nil_r. split; constructor.
  - rewrite replay_loop_cons in H.
    destruct (td_target t s) as [[y s1] | e] eqn:Ht; [| discriminate].
    destruct (td_target_ok t s s1 y Ht) as (Hs1 & Hw1 & Hf1 & Hy).
    destruct (np_setitem _ _ _) as [row | e] eqn:Hset; [| discriminate].
    apply IH in H as (Hs & Hw & Hf & rows & Hr & Hrows).
    cbn [logged self world] in Hs, Hw, Hrows.
    rewrite logged_fit_count in Hf.
    rewrite Hs1 in *.
    split; [exact Hs |]. split; [congruence |].
    split; [rewrite Hf, Hf1; unfold fit_count; simpl; lia |].
    exists (row :: rows). split.
    + rewrite Hr, <- !app_assoc. reflexivity.
    + constructor; [| exact Hrows].
      apply np_setitem_ok in Hset as [Hidx ->].
      destruct (np_setitem_spec _ _ y Hidx) as [_ Hlt].
      unfold fitted_row. cbv zeta.
      rewrite set_nth_length. split; [reflexivity |]. split.
      * now rewrite set_nth_same.
      * intros j Hj. apply set_nth_other. congruence.
Qed.

Lemma replay_loop_total (mb : list Transition) :
  forall (xs ys : list (list Q)) (s : Sys),
    forallb (replayable (self s)) mb = true ->
    exists r s', replay_loop mb xs ys s = Ok (r, s').
Proof.
  induction mb as [| t rest IH]; intros xs ys s H.
  - simpl. unfold ret. eauto.
  - simpl in H. apply andb_true_iff in H as [Ht Hrest].
    rewrite replay_loop_cons.
    destruct (td_target_total t s Ht) as (y & s1 & Hrun).
    rewrite Hrun.
    destruct (td_target_ok t s s1 y Hrun) as (Hs1 & _).
    unfold replayable in Ht. apply andb_true_iff in Ht as [Hidx _].
    rewrite Hs1.
    destruct (np_setitem_spec _ _ y Hidx) as [-> _].
    apply IH. cbn [logged self]. now rewrite Hs1.
Qed.

End ReplayFacts.

Section ReplayUpdate.

Context {E : Externals}.

Lemma fit_ok (xs ys : list (list Q)) (bs ep ie : Z) (s s' : Sys) :
  fit xs ys bs ep ie s = Ok (tt, s') ->
  exists net w,
    s' = mkSys (set_q_value_model net (self s)) w
               (log s ++ [EvFit xs ys bs ep ie]).
Proof.
  unfold fit, bind, gets, call_fallible, modify.
  destruct (fit_call _ _ _ _ _ _ _ _ _) as [[r w] | e]; [| discriminate].
  simpl. intros H. inversion H. eauto.
Qed.

Lemma sample_batch_negative (bs : Z) (s : Sys) :
  bs < 0 -> _sample_batch bs s = Raise ValueError.
Proof.
  intros H. unfold _sample_batch, bind, gets, random_sample.
  replace (bs <? 0) with true by (symmetry; apply Z.ltb_lt; lia).
  reflexivity.
Qed.

Lemma replay_noop (bs n : Z) (s : Sys) :
  Deque.len (experience_replay (self s)) <= bs ->
  _replay bs n s = Ok (tt, s).
Proof.
  intros H. unfold _replay, bind, gets.
  replace (Deque.len (experience_replay (self s)) <=? bs) with true
    by (symmetry; apply Z.leb_le; lia).
  reflexivity.
Qed.

(** What a completed update has done. *)
Lemma replay_ok (bs n : Z) (s s' : Sys) :
  bs < Deque.len (experience_replay (self s)) ->
  _replay bs n s = Ok (tt, s') ->
  exists mb s1 rows net,
    _sample_batch bs s = Ok (mb, s1)
    /\ Z.of_nat (length mb) = bs
    /\ (forall t, In t mb ->
                  In t (Deque.items (experience_replay (self s))))
    /\ Forall2 (fitted_row (self s)) mb rows
    /\ self s' = decay_epsilon (set_q_value_model net (self s))
    /\ (exists l, log s' = l ++ [EvFit (map t_state mb) rows bs (n + 1) n])
    /\ fit_count (log s') = S (fit_count (log s)).
Proof.
  intros Hlen. unfold _replay, bind at 1, gets at 1.
  replace (Deque.len (experience_replay (self s)) <=? bs) with false
    by (symmetry; apply Z.leb_gt; lia).
  unfold bind at 1.
  destruct (Z.ltb_spec bs 0) as [Hneg | Hpos].
  { rewrite sample_batch_negative by assumption. discriminate. }
  assert (Hrun : exists mb s1,
             _sample_batch bs s = Ok (mb, s1)
             /\ self s1 = self s
             /\ fit_count (log s1) = fit_count (log s)
             /\ Z.of_nat (length mb) = bs
             /\ forall t, In t mb ->
                  In t (Deque.items (experience_replay (self s)))).
  { unfold _sample_batch, bind, gets.
    destruct (random_sample_spec
                (Deque.items (experience_replay (self s))) bs s)
      as (mb & idx & s1 & H1 & H2 & H3 & H4 & _ & _ & H5).
    - unfold Deque.len in Hlen. lia.
    - exists mb, s1. auto. }
  destruct Hrun as (mb & s1 & Hsb & Hs1 & Hf1 & Hmb & Hin).
  rewrite Hsb. unfold bind at 1.
  destruct (replay_loop mb [] [] s1) as [[[xs ys] s2] | e] eqn:Hloop;
    [| discriminate].
  apply replay_loop_ok in Hloop as (Hs2 & _ & Hf2 & rows & Hr & Hrows).
  simpl in Hr. inversion Hr. subst xs ys. clear Hr.
  unfold bind at 1.
  destruct (fit (map t_state mb) rows bs (n + 1) n s2)
    as [[[] s3] | e] eqn:Hfit; [| discriminate].
  apply fit_ok in Hfit as (net & w & ->).
  unfold modify. cbn [self world log]. intros H. inversion H. subst s'.
  clear H. cbn [self log].
  exists mb, s1, rows, net.
  split; [reflexivity |]. split; [exact Hmb |]. split; [exact Hin |].
  split; [now rewrite <- Hs1 |].
  split; [now rewrite Hs2, Hs1 |].
  split; [eauto |].
  rewrite fit_count_app, Hf2, Hf1. unfold fit_count at 2. simpl. lia.
Qed.

(** C1 (TD targets fitted by [_replay]). Whenever an update on a warm
    buffer completes, it has issued exactly one [fit], as its last call,
    and that call pairs the states of the transitions [_sample_batch]
    returned, all [batch_size] of them and in the order returned, with
    one row per transition. The row of a transition is the online
    network's prediction for its state, changed only at the position of
    the taken action, where it holds the TD target: the reward alone if
    the transition is terminal, otherwise the reward plus gamma times a
    largest entry of the target network's prediction for the next
    state. *)
Theorem replay_td_targets (batch_size step_number : Z) (s s' : Sys) :
  batch_size < Deque.len (experience_replay (self s)) ->
  _replay batch_size step_number s = Ok (tt, s') ->
  exists minibatch s1 rows,
    _sample_batch batch_size s = Ok (minibatch, s1)
    /\ Z.of_nat (length minibatch) = batch_size
    /\ (forall t, In t minibatch ->
                  In t (Deque.items (experience_replay (self s))))
    /\ (exists l,
          log s' = l ++ [EvFit (map t_state minibatch) rows batch_size
                               (step_number + 1) step_number])
    /\ fit_count (log s') = S (fit_count (log s))
    /\ Forall2 (fitted_row (self s)) minibatch rows.
Proof.
  intros Hlen Hrun.
  destruct (replay_ok _ _ _ _ Hlen Hrun)
    as (mb & s1 & rows & net & Hsb & Hn & Hin & Hrows & _ & Hlog & Hfit).
  exists mb, s1, rows. auto 10.
Qed.


End ReplayUpdate.

(** ** Action selection *)

Section ActionFacts.

Context {E : Externals}.

Lemma sample_action_explore (x : list Q) (s : Sys) :
  (fst (random_uniform01 (world s)) < epsilon (self s))%Q ->
  _sample_action x s
  = Ok (fst (action_space_sample (snd (random_uniform01 (world s)))),
        mkSys (self s)
              (snd (action_space_sample (snd (random_uniform01 (world s)))))
              (log s ++ [EvUniform; EvActionSample])).
Proof.
  intros Hu. apply Qltb_true in Hu.
  unfold _sample_action, bind, call, gets.
  destruct (random_uniform01 (world s)) as [u w1]. simpl in *.
  rewrite Hu. unfold call. simpl.
  destruct (action_space_sample w1) as [a w2]. simpl.
  now rewrite <- app_assoc.
Qed.

Lemma sample_action_exploit (x : list Q) (s : Sys) :
  (epsilon (self s) <= fst (random_uniform01 (world s)))%Q ->
  _sample_action x s
  = match np_argmax (online_q (self s) x) with
    | Ok a => Ok (a, mkSys (self s) (snd (random_uniform01 (world s)))
                           (log s ++ [EvUniform; EvPredict Online x]))
    | Raise e => Raise e
    end.
Proof.
  intros Hu. apply Qltb_false in Hu.
  unfold _sample_action, bind, call, gets.
  destruct (random_uniform01 (world s)) as [u w1]. simpl in *.
  rewrite Hu. unfold predict, bind, gets, emit, ret, lift, online_q. simpl.
  destruct (np_argmax _); [| reflexivity].
  now rewrite <- app_assoc.
Qed.

(** C9 ([_sample_action]). When the uniform draw is below epsilon, the
    action is the one returned by the environment's own sampler and the
    log shows no prediction. When the draw is at least epsilon, the online
    network is queried once on the state and the action is the position of
    a largest predicted value, the lowest such position on ties. *)
Theorem sample_action_epsilon_greedy (x : list Q) (s : Sys) :
  ((fst (random_uniform01 (world s)) < epsilon (self s))%Q ->
   _sample_action x s
   = Ok (fst (action_space_sample (snd (random_uniform01 (world s)))),
         mkSys (self s)
               (snd (action_space_sample (snd (random_uniform01 (world s)))))
               (log s ++ [EvUniform; EvActionSample])))
  /\ ((epsilon (self s) <= fst (random_uniform01 (world s)))%Q ->
      online_q (self s) x <> [] ->
      exists a,
        _sample_action x s
        = Ok (a, mkSys (self s) (snd (random_uniform01 (world s)))
                       (log s ++ [EvUniform; EvPredict Online x]))
        /\ first_argmax a (online_q (self s) x)).
Proof.
  split; [apply sample_action_explore |].
  intros Hu Hq. rewrite sample_action_exploit by assumption.
  destruct (np_argmax_first _ Hq) as (a & -> & Ha). eauto.
Qed.





End ActionFacts.

(** ** Construction *)

Section ConstructionFacts.

Context {E : Externals}.

(** C10 ([_build_model]). For every depth selector other than 5 the
    network consists of four hidden layers of 32 rectified units followed
    by the linear output layer, exactly what the selector 3 builds.
    [_build_model] is a total function: no selector makes it raise. *)
Theorem build_model_other_depths (ssize asize depth : Z) (lr : Q)
  (w : World) :
  depth <> 5 ->
  layers (fst (_build_model ssize asize depth lr w))
  = [mkDense 32 (Some ssize) relu; mkDense 32 None relu;
     mkDense 32 None relu; mkDense 32 None relu;
     mkDense asize None linear]
  /\ layers (fst (_build_model ssize asize depth lr w))
     = layers (fst (_build_model ssize asize 3 lr w)).
Proof.
  intros Hd. unfold _build_model, build_layers.
  replace (depth =? 5) with false by (symmetry; apply Z.eqb_neq; exact Hd).
  simpl. split; destruct (initial_weights _ w); reflexivity.
Qed.


Lemma init_stores (args : init_args) (w : World) (s : Sys) :
  __init__ args w = Ok s ->
  epsilon (self s) = arg_epsilon args
  /\ min_epsilon (self s) = arg_min_epsilon args
  /\ experience_replay (self s)
     = Deque.mk (arg_experience_replay_size args) [].
Proof.
  unfold __init__, Deque.new.
  destruct (arg_experience_replay_size args <? 0); [discriminate |].
  destruct (_build_model _ _ _ _ w) as [qm w1].
  destruct (_build_model _ _ _ _ w1) as [tm w2].
  intros H. inversion H. simpl. auto.
Qed.





End ConstructionFacts.

Section ConstructionExamples.

#[local] Existing Instance Toy.externals.



Lemma build_model_other_depths_witness :
  layers (fst (_build_model 4 2 7 (1 # 1000) (Toy.start 0)))
  = [mkDense 32 (Some 4) relu; mkDense 32 None relu;
     mkDense 32 None relu; mkDense 32 None relu;
     mkDense 2 None linear]
  /\ layers (fst (_build_model 4 2 7 (1 # 1000) (Toy.start 0)))
     = layers (fst (_build_model 4 2 3 (1 # 1000) (Toy.start 0))).
Proof.
  apply (build_model_other_depths 4 2 7 (1 # 1000) (Toy.start 0)).
  discriminate.
Defined.

End ConstructionExamples.

(** ** Target synchronisation *)

Section SyncFacts.

Context {E : Externals}.

Lemma replay_keeps (bs n : Z) (s s' : Sys) :
  _replay bs n s = Ok (tt, s') ->
  target_model (self s') = target_model (self s)
  /\ steps_update_target_model (self s')
     = steps_update_target_model (self s)
  /\ experience_replay (self s') = experience_replay (self s).
Proof.
  intros H.
  destruct (Z.le_gt_cases (Deque.len (experience_replay (self s))) bs)
    as [Hle | Hgt].
  - rewrite replay_noop in H by assumption. inversion H. auto.
  - destruct (replay_ok bs n s s')
      as (_ & _ & _ & net & _ & _ & _ & _ & -> & _); [lia | exact H |].
    simpl. auto.
Qed.


End SyncFacts.

Section SyncExamples.

#[local] Existing Instance Toy.externals.

(** C2 on a run that never terminates an episode early, with a
    synchronisation interval of 3 and nine environment steps: the target
    network is overwritten after steps 3, 5, 7 and 9. After the first
    synchronisation the period is 2, not 3. *)
Theorem sync_period_shrinks_after_first :
  sync_steps (Toy.run_log (Toy.args 1 (1 # 100) (995 # 1000) 2000 3)
                          0 1 10 2)
  = [3; 5; 7; 9].
Proof. vm_compute. reflexivity. Qed.

(** The same with the default interval of 32: the first three
    synchronisations come after steps 32, 63 and 94. *)
Lemma sync_period_default_interval :
  sync_steps (Toy.run_log (Toy.args 1 (1 # 100) (995 # 1000) 2000 32)
                          0 1 100 200)
  = [32; 63; 94].
Proof. vm_compute. reflexivity. Qed.

End SyncExamples.

(** ** The statements at concrete inputs *)

Section Examples.

#[local] Existing Instance Toy.externals.

Lemma replay_td_targets_witness :
  exists minibatch s1 rows,
    _sample_batch 2 Toy.warm = Ok (minibatch, s1)
    /\ Z.of_nat (length minibatch) = 2
    /\ (forall t, In t minibatch ->
                  In t (Deque.items (experience_replay (self Toy.warm))))
    /\ (exists l,
          log Toy.replayed
          = l ++ [EvFit (map t_state minibatch) rows 2 (7 + 1) 7])
    /\ fit_count (log Toy.replayed) = S (fit_count (log Toy.warm))
    /\ Forall2 (fitted_row (self Toy.warm)) minibatch rows.
Proof.
  apply (replay_td_targets 2 7 Toy.warm Toy.replayed).
  - vm_compute. reflexivity.
  - vm_compute. reflexivity.
Defined.



Lemma sample_batch_without_replacement_witness :
  (exists batch idx s',
      _sample_batch 2 Toy.warm = Ok (batch, s')
      /\ self s' = self Toy.warm
      /\ Z.of_nat (length batch) = 2
      /\ NoDup idx
      /\ Forall2
           (fun t i =>
              nth_error (Deque.items (experience_replay (self Toy.warm))) i
              = Some t)
           batch idx)
  /\ _sample_batch 4 Toy.warm = Raise ValueError.
Proof.
  split.
  - apply (sample_batch_without_replacement 2 Toy.warm).
    vm_compute. split; [reflexivity | discriminate].
  - apply (sample_batch_without_replacement 4 Toy.warm).
    vm_compute. reflexivity.
Defined.


Lemma sample_action_epsilon_greedy_witness :
  _sample_action [0%Q] (Toy.boot (Toy.args 1 (1 # 100) (995 # 1000) 2000 32) 0)
  = Ok (2, logged (Toy.boot (Toy.args 1 (1 # 100) (995 # 1000) 2000 32) 0)
                  [EvUniform; EvActionSample])
  /\ exists a,
       _sample_action [0%Q] Toy.warm
       = Ok (a, logged Toy.warm [EvUniform; EvPredict Online [0%Q]])
       /\ first_argmax a (online_q (self Toy.warm) [0%Q]).
Proof.
  split.
  - apply (sample_action_epsilon_greedy [0%Q]
             (Toy.boot (Toy.args 1 (1 # 100) (995 # 1000) 2000 32) 0)).
    vm_compute. reflexivity.
  - apply (sample_action_epsilon_greedy [0%Q] Toy.warm).
    + vm_compute. discriminate.
    + vm_compute. discriminate.
Defined.

End Examples.

(** * Further properties *)

(** ** How the log grows *)

Section LogFacts.

Context {E : Externals}.

Lemma extends_refl (p : event -> bool) (s : Sys) : extends p s s.
Proof. exists []. now rewrite app_nil_r. Qed.

Lemma extends_trans (p : event -> bool) (s1 s2 s3 : Sys) :
  extends p s1 s2 -> extends p s2 s3 -> extends p s1 s3.
Proof.
  intros (e1 & H1 & P1) (e2 & H2 & P2). exists (e1 ++ e2). split.
  - now rewrite H2, H1, app_assoc.
  - now rewrite forallb_app, P1, P2.
Qed.

Lemma extends_weaken (p q : event -> bool) (s s' : Sys) :
  (forall e, p e = true -> q e = true) ->
  extends p s s' -> extends q s s'.
Proof.
  intros Hpq (evs & Hl & Hp). exists evs. split; [exact Hl |].
  apply forallb_forall. intros e He. apply Hpq.
  rewrite forallb_forall in Hp. now apply Hp.
Qed.

Lemma extends_logged (p : event -> bool) (s : Sys) (evs : list event) :
  forallb p evs = true -> extends p s (logged s evs).
Proof. intros H. exists evs. split; [reflexivity | exact H]. Qed.

Lemma filter_none (p q : event -> bool) (evs : list event) :
  (forall e, p e = true -> q e = false) ->
  forallb p evs = true -> filter q evs = [].
Proof.
  intros Hpq. induction evs as [| e evs IH]; simpl; [reflexivity |].
  intros H. apply andb_true_iff in H as [He Hevs].
  rewrite (Hpq e He). now apply IH.
Qed.

Lemma extends_filter (p q : event -> bool) (s s' : Sys) :
  (forall e, p e = true -> q e = false) ->
  extends p s s' -> filter q (log s') = filter q (log s).
Proof.
  intros Hpq (evs & Hl & Hp).
  rewrite Hl, filter_app, (filter_none p q evs Hpq Hp). apply app_nil_r.
Qed.

Lemma sample_pool_trace {A : Type} (k : nat) :
  forall (pool b : list A) (s s' : Sys),
    sample_pool k pool s = Ok (b, s') ->
    self s' = self s /\ extends is_sampling s s'.
Proof.
  induction k as [| k IH]; intros pool b s s' H.
  - inversion H. subst. split; [reflexivity | apply extends_refl].
  - destruct pool as [| x0 tl0]; [discriminate |].
    cbn [sample_pool] in H. unfold bind at 1, call in H.
    destruct (randbelow _ (world s)) as [j w1].
    unfold bind at 1 in H.
    destruct (sample_pool k _ _) as [[rest s1] | e] eqn:Hrec;
      [| discriminate].
    inversion H. subst. apply IH in Hrec as [Hs Hext].
    split; [exact Hs |].
    eapply extends_trans; [| exact Hext].
    exists [EvRandbelow (length (x0 :: tl0))]. split; reflexivity.
Qed.

Lemma sample_batch_trace (bs : Z) (mb : list Transition) (s s1 : Sys) :
  _sample_batch bs s = Ok (mb, s1) ->
  self s1 = self s /\ extends is_sampling s s1
  /\ 0 <= bs <= Deque.len (experience_replay (self s)).
Proof.
  unfold _sample_batch, bind at 1, gets, random_sample, Deque.len.
  destruct (Z.ltb_spec bs 0) as [Hn | Hn]; [discriminate |].
  destruct (Z.ltb_spec
              (Z.of_nat (length (Deque.items (experience_replay (self s)))))
              bs) as [Hb | Hb]; [discriminate |].
  simpl. unfold bind, emit. intros H.
  apply sample_pool_trace in H as [Hs Hext]. cbn [self] in Hs.
  split; [exact Hs |]. split; [| lia].
  eapply extends_trans; [| exact Hext].
  exists [EvRandomSample bs]. split; reflexivity.
Qed.

Lemma td_target_trace (t : Transition) (s s' : Sys) (y : Q) :
  td_target t s = Ok (y, s') -> extends is_sampling s s'.
Proof.
  rewrite td_target_run. destruct (t_done t).
  - intros H. inversion H. apply extends_refl.
  - destruct (np_max _); intros H; inversion H.
    now apply extends_logged.
Qed.

Lemma replay_loop_trace (mb : list Transition) :
  forall (xs ys : list (list Q)) (s s' : Sys) r,
    replay_loop mb xs ys s = Ok (r, s') -> extends is_sampling s s'.
Proof.
  induction mb as [| t rest IH]; intros xs ys s s' r H.
  - inversion H. apply extends_refl.
  - rewrite replay_loop_cons in H.
    destruct (td_target t s) as [[y s1] | e] eqn:Ht; [| discriminate].
    destruct (np_setitem _ _ _) as [row | e]; [| discriminate].
    apply IH in H. apply td_target_trace in Ht.
    eapply extends_trans; [exact Ht |].
    eapply extends_trans; [| exact H].
    now apply extends_logged.
Qed.

Lemma fit_shape (xs ys : list (list Q)) (bs ep ie : Z) (s s' : Sys) :
  fit xs ys bs ep ie s = Ok (tt, s') ->
  exists ws opt,
    self s'
    = set_q_value_model
        (mkSequential (layers (q_value_model (self s))) ws opt) (self s)
    /\ log s' = log s ++ [EvFit xs ys bs ep ie].
Proof.
  unfold fit, bind, gets, call_fallible, modify.
  destruct (fit_call _ _ _ _ _ _ _ _ _) as [[r w] | e]; [| discriminate].
  simpl. intros H. inversion H. subst. simpl. eauto.
Qed.

(** The two ways an update can return. *)
Lemma replay_shape (bs n : Z) (s s' : Sys) :
  _replay bs n s = Ok (tt, s') ->
  (Deque.len (experience_replay (self s)) <= bs /\ s' = s)
  \/ (0 <= bs < Deque.len (experience_replay (self s))
      /\ exists ws opt evs xs ys,
           self s'
           = decay_epsilon
               (set_q_value_model
                  (mkSequential (layers (q_value_model (self s))) ws opt)
                  (self s))
           /\ log s' = log s ++ evs ++ [EvFit xs ys bs (n + 1) n]
           /\ forallb is_sampling evs = true).
Proof.
  destruct (Z.le_gt_cases (Deque.len (experience_replay (self s))) bs)
    as [Hle | Hgt].
  - rewrite replay_noop by assumption. intros H. inversion H. subst.
    left. split; [assumption | reflexivity].
  - unfold _replay, bind at 1, gets at 1.
    replace (Deque.len (experience_replay (self s)) <=? bs) with false
      by (symmetry; apply Z.leb_gt; lia).
    unfold bind at 1.
    destruct (_sample_batch bs s) as [[mb s1] | e] eqn:Hsb; [| discriminate].
    apply sample_batch_trace in Hsb as (Hs1 & (e1 & Hl1 & Hp1) & Hbs).
    unfold bind at 1.
    destruct (replay_loop mb [] [] s1) as [[[xs ys] s2] | e] eqn:Hloop;
      [| discriminate].
    pose proof (replay_loop_trace _ _ _ _ _ _ Hloop) as (e2 & Hl2 & Hp2).
    apply replay_loop_ok in Hloop as (Hs2 & _).
    unfold bind at 1.
    destruct (fit xs ys bs (n + 1) n s2) as [[[] s3] | e] eqn:Hfit;
      [| discriminate].
    apply fit_shape in Hfit as (ws & opt & Hs3 & Hl3).
    unfold modify. intros H. inversion H. subst s'. cbn [self log].
    right. split; [lia |].
    exists ws, opt, (e1 ++ e2), xs, ys.
    split; [now rewrite Hs3, Hs2, Hs1 |].
    split; [rewrite Hl3, Hl2, Hl1, <- !app_assoc; reflexivity |].
    now rewrite forallb_app, Hp1, Hp2.
Qed.

Lemma replay_trace (bs n : Z) (s s' : Sys) :
  _replay bs n s = Ok (tt, s') -> extends is_update s s'.
Proof.
  intros H. apply replay_shape in H as [[_ ->] | [_ H]].
  - apply extends_refl.
  - destruct H as (ws & opt & evs & xs & ys & _ & Hl & Hp).
    exists (evs ++ [EvFit xs ys bs (n + 1) n]). split; [exact Hl |].
    rewrite forallb_app. simpl. rewrite andb_true_r.
    apply forallb_forall. intros e He.
    rewrite forallb_forall in Hp. specialize (Hp e He).
    destruct e; simpl in *; congruence.
Qed.

End LogFacts.

(** ** The shape of one iteration *)

Section StepShape.

Context {E : Externals}.

Lemma correct_state_size_ok (x y : list Q) (s s' : Sys) :
  _correct_state_size x s = Ok (y, s') ->
  s' = s /\ y = x
  /\ (state_size (self s) = -1
      \/ Z.of_nat (length x) = state_size (self s)).
Proof.
  unfold _correct_state_size, bind, gets, lift, np_reshape_row.
  destruct (Z.eqb_spec (state_size (self s)) (-1)) as [Hinf | Hinf].
  - intros H. inversion H. subst. auto.
  - destruct (Z.eqb_spec (Z.of_nat (length x)) (state_size (self s)))
      as [Heq | Hne]; intros H; inversion H. subst. auto.
Qed.


Lemma act_shape (v : locals) (s s1 : Sys) (t : Transition) :
  act v s = Ok (t, s1) ->
  self s1 = self s
  /\ t_state t = state v
  /\ (state_size (self s) = -1
      \/ Z.of_nat (length (t_next_state t)) = state_size (self s))
  /\ exists e,
       log s1 = log s ++ [EvUniform; e; EvStep (t_action t)]
       /\ (e = EvActionSample \/ e = EvPredict Online (state v)).
Proof.
  unfold act, bind at 1.
  destruct (_sample_action (state v) s) as [[a s0] | e] eqn:Ha;
    [| discriminate].
  assert (H0 : self s0 = self s
               /\ exists e, log s0 = log s ++ [EvUniform; e]
                            /\ (e = EvActionSample
                                \/ e = EvPredict Online (state v))).
  { destruct (Qlt_le_dec (fst (random_uniform01 (world s)))
                         (epsilon (self s))) as [Hu | Hu].
    - rewrite sample_action_explore in Ha by assumption.
      inversion Ha. subst. cbn [self log]. eauto.
    - rewrite sample_action_exploit in Ha by assumption.
      destruct (np_argmax _); inversion Ha. subst. cbn [self log]. eauto. }
  destruct H0 as (Hs0 & e & Hl0 & He).
  unfold bind at 1, call.
  destruct (env_step a (world s0)) as [[[nx r] dn] w1].
  unfold bind at 1.
  destruct (_correct_state_size nx _) as [[nx' s2] | err] eqn:Hc;
    [| discriminate].
  apply correct_state_size_ok in Hc as (-> & -> & Hlen).
  unfold ret. intros H. inversion H. subst. cbn [self log] in *.
  cbn [t_state t_next_state t_action].
  split; [exact Hs0 |]. split; [reflexivity |].
  split; [now rewrite <- Hs0 |].
  exists e. split; [| exact He].
  rewrite Hl0, <- app_assoc. reflexivity.
Qed.

Lemma sync_target_run (s : Sys) :
  sync_target s
  = Ok (tt, mkSys (set_target_model
                     (mkSequential (layers (target_model (self s)))
                                   (weights (q_value_model (self s)))
                                   (optimizer (target_model (self s))))
                     (self s))
                  (world s) (log s ++ [EvSetWeights])).
Proof. reflexivity. Qed.

(** Every way an iteration of the step loop can return. *)
Lemma step_body_shape (bs : Z) (v v' : locals) (f : flow) (s s' : Sys) :
  step_body bs v s = Ok ((f, v'), s') ->
  exists t s1,
    act v s = Ok (t, s1)
    /\ ((t_done t = true /\ f = Break
         /\ s' = with_transition t s1
         /\ v' = mkLocals (t_next_state t)
                          (reward_in_episode v + t_reward t)%Q
                          (steps_till_update v) (total_steps v))
        \/ (t_done t = false /\ f = Next
            /\ exists s2,
                 _replay bs (total_steps v) (with_transition t s1)
                 = Ok (tt, s2)
                 /\ steps_update_target_model (self s2) <> 0
                 /\ v' = mkLocals (t_next_state t)
                          (reward_in_episode v + t_reward t)%Q
                          (next_counter (steps_update_target_model (self s2))
                                        (steps_till_update v))
                          (total_steps v + 1)
                 /\ ((steps_till_update v
                        mod steps_update_target_model (self s2) = 0
                      /\ sync_target s2 = Ok (tt, s'))
                     \/ (steps_till_update v
                           mod steps_update_target_model (self s2) <> 0
                         /\ s' = s2)))).
Proof.
  unfold step_body, bind at 1.
  destruct (act v s) as [[t s1] | e] eqn:Hact; [| discriminate].
  exists t, s1. split; [reflexivity |].
  unfold bind at 1, store in H.
  destruct (t_done t) eqn:Hdone.
  - unfold ret in H. inversion H. left. auto.
  - unfold bind at 1 in H.
    destruct (_replay bs (total_steps v) (with_transition t s1))
      as [[[] s2] | e] eqn:Hrep; [| discriminate].
    unfold bind at 1, sync_due, bind at 1, gets at 1 in H.
    unfold bind at 1, lift, py_mod in H.
    destruct (Z.eqb_spec (steps_update_target_model (self s2)) 0)
      as [H0 | H0]; [discriminate |].
    unfold ret at 1 in H. unfold next_counter.
    right. split; [reflexivity |].
    destruct (Z.eqb_spec
                (steps_till_update v mod steps_update_target_model (self s2))
                0) as [Hdue | Hdue].
    + unfold bind, ret in H. rewrite sync_target_run in H.
      inversion H. split; [reflexivity |].
      exists s2. split; [reflexivity |]. split; [exact H0 |].
      split; [now rewrite (proj2 (Z.eqb_eq _ _) Hdue) |].
      left. split; [exact Hdue |]. apply sync_target_run.
    + unfold bind, ret in H. inversion H. subst.
      split; [reflexivity |].
      exists s'. split; [reflexivity |]. split; [exact H0 |].
      split; [now rewrite (proj2 (Z.eqb_neq _ _) Hdue) |].
      right. auto.
Qed.

End StepShape.

(** ** Induction over a training run *)

Section TrainInduction.

Context {E : Externals}.

Variable bs : Z.
Variable R : Sys -> Sys -> Prop.

Hypothesis R_refl : forall s, R s s.
Hypothesis R_trans : forall s1 s2 s3, R s1 s2 -> R s2 s3 -> R s1 s3.
Hypothesis R_act :
  forall v s t s1, act v s = Ok (t, s1) -> R s s1.
Hypothesis R_store : forall t s, R s (with_transition t s).
Hypothesis R_replay :
  forall n s s', _replay bs n s = Ok (tt, s') -> R s s'.
Hypothesis R_sync : forall s s', sync_target s = Ok (tt, s') -> R s s'.
Hypothesis R_reset :
  forall s x s', call EvReset env_reset s = Ok (x, s') -> R s s'.
Hypothesis R_report :
  forall r i s,
    R s (mkSys (set_last_100_rewards
                  (Deque.append (_last_100_rewards (self s)) r) (self s))
               (world s) (log s ++ [EvScalar r i])).

Lemma step_body_related (v v' : locals) (f : flow) (s s' : Sys) :
  step_body bs v s = Ok ((f, v'), s') -> R s s'.
Proof.
  intros H. apply step_body_shape in H as (t & s1 & Hact & Hcase).
  apply R_trans with s1; [now apply R_act with v t |].
  apply R_trans with (with_transition t s1); [apply R_store |].
  destruct Hcase as [(_ & _ & -> & _) | (_ & _ & s2 & Hrep & _ & _ & Hsync)].
  - apply R_refl.
  - apply R_trans with s2; [now apply R_replay with (total_steps v) |].
    destruct Hsync as [[_ Hs] | [_ ->]];
      [now apply R_sync | apply R_refl].
Qed.

Lemma step_loop_related (n : nat) :
  forall (v v' : locals) (s s' : Sys),
    step_loop n bs v s = Ok (v', s') -> R s s'.
Proof.
  induction n as [| n IH]; intros v v' s s' H.
  - inversion H. apply R_refl.
  - cbn [step_loop] in H. unfold bind in H.
    destruct (step_body bs v s) as [[[f v1] s1] | e] eqn:Hb;
      [| discriminate].
    apply step_body_related in Hb.
    destruct f.
    + apply R_trans with s1; [exact Hb | now apply IH with v1 v'].
    + inversion H. now subst.
Qed.

Lemma episode_related (i spe c tot : Z) (r : Z * Z) (s s' : Sys) :
  episode i spe bs c tot s = Ok (r, s') -> R s s'.
Proof.
  unfold episode, bind at 1.
  destruct (call EvReset env_reset s) as [[x s1] | e] eqn:Hreset;
    [| discriminate].
  apply R_reset in Hreset.
  unfold bind at 1.
  destruct (_correct_state_size x s1) as [[x' s1'] | e] eqn:Hc;
    [| discriminate].
  apply correct_state_size_ok in Hc as (-> & -> & _).
  unfold bind at 1.
  destruct (step_loop _ bs _ s1) as [[v s2] | e] eqn:Hloop;
    [| discriminate].
  apply step_loop_related in Hloop.
  unfold bind, emit, modify, ret. cbn [self world log].
  intros H. inversion H. subst.
  apply R_trans with s1; [exact Hreset |].
  apply R_trans with s2; [exact Hloop |].
  apply R_report.
Qed.

Lemma episodes_loop_related (n : nat) :
  forall (i spe c tot : Z) (s s' : Sys),
    episodes_loop n i spe bs c tot s = Ok (tt, s') -> R s s'.
Proof.
  induction n as [| n IH]; intros i spe c tot s s' H.
  - inversion H. apply R_refl.
  - cbn [episodes_loop] in H. unfold bind in H.
    destruct (episode i spe bs c tot s) as [[[c1 t1] s1] | e] eqn:Hep;
      [| discriminate].
    apply episode_related in Hep.
    apply R_trans with s1; [exact Hep | now apply IH in H].
Qed.

Lemma train_agent_related (episodes spe : Z) (s s' : Sys) :
  train_agent episodes spe bs s = Ok (tt, s') -> R s s'.
Proof. unfold train_agent. apply episodes_loop_related. Qed.

End TrainInduction.

(** ** What training leaves alone *)

Section TrainFrame.

Context {E : Externals}.

Lemma same_config_refl (a : DQNAgent) : same_config a a.
Proof. unfold same_config. repeat split. Qed.

Lemma same_config_trans (a b c : DQNAgent) :
  same_config a b -> same_config b c -> same_config a c.
Proof.
  unfold same_config.
  intros (A1 & A2 & A3 & A4 & A5 & A6 & A7 & A8 & A9 & A10 & A11 & A12)
         (B1 & B2 & B3 & B4 & B5 & B6 & B7 & B8 & B9 & B10 & B11 & B12).
  repeat split; congruence.
Qed.

Lemma same_config_eq (a b : DQNAgent) : b = a -> same_config a b.
Proof. intros ->. apply same_config_refl. Qed.

Lemma keeps_frame_same_self (s s' : Sys) :
  self s' = self s -> keeps_frame s s'.
Proof.
  intros H. split; [now apply same_config_eq | now rewrite H].
Qed.

Lemma replay_keeps_frame (bs n : Z) (s s' : Sys) :
  _replay bs n s = Ok (tt, s') -> keeps_frame s s'.
Proof.
  intros H. apply replay_shape in H as [[_ ->] | [_ H]].
  - now apply keeps_frame_same_self.
  - destruct H as (ws & opt & evs & xs & ys & Hs & _).
    unfold keeps_frame. rewrite Hs.
    split; [unfold same_config; simpl; repeat split | auto].
Qed.

Lemma train_keeps_frame (episodes spe bs : Z) (s s' : Sys) :
  train_agent episodes spe bs s = Ok (tt, s') -> keeps_frame s s'.
Proof.
  apply train_agent_related.
  - intros s0. now apply keeps_frame_same_self.
  - intros s1 s2 s3 [C1 B1] [C2 B2]. split.
    + eapply same_config_trans; eassumption.
    + auto.
  - intros v s0 t s1 H. apply act_shape in H as (H & _).
    now apply keeps_frame_same_self.
  - intros t s0. split.
    + unfold same_config, with_transition. cbn [self]. simpl.
      rewrite append_maxlen. repeat split.
    + unfold buffers_bounded, with_transition. cbn [self]. simpl.
      intros [Hb Hr]. split; [now apply append_bounded | exact Hr].
  - intros n s0 s1. apply replay_keeps_frame.
  - intros s0 s1 H. rewrite sync_target_run in H. inversion H.
    split; [unfold same_config; simpl; repeat split | auto].
  - intros s0 x s1 H. unfold call in H.
    destruct (env_reset (world s0)). inversion H.
    now apply keeps_frame_same_self.
  - intros r i s0. split.
    + unfold same_config. simpl. rewrite append_maxlen. repeat split.
    + unfold buffers_bounded. simpl.
      intros [Hb Hr]. split; [exact Hb | now apply append_bounded].
Qed.

End TrainFrame.

Section TrainFrameTheorems.

Context {E : Externals}.

Lemma init_buffers (args : init_args) (w : World) (s : Sys) :
  __init__ args w = Ok s ->
  experience_replay (self s)
  = Deque.mk (arg_experience_replay_size args) []
  /\ _last_100_rewards (self s) = Deque.mk 100 []
  /\ 0 <= arg_experience_replay_size args
  /\ log s = [].
Proof.
  unfold __init__, Deque.new.
  destruct (Z.ltb_spec (arg_experience_replay_size args) 0) as [Hn | Hn];
    [discriminate |].
  destruct (_build_model _ _ _ _ w) as [qm w1].
  destruct (_build_model _ _ _ _ w1) as [tm w2].
  intros H. inversion H. simpl. auto.
Qed.

(** A returned training run has changed no hyper-parameter, neither
    architecture and neither capacity. *)
Theorem train_keeps_configuration (episodes steps_per_episode
  batch_size : Z) (s s' : Sys) :
  train_agent episodes steps_per_episode batch_size s = Ok (tt, s') ->
  same_config (self s) (self s').
Proof. intros H. now apply train_keeps_frame in H as [Hc _]. Qed.

(** For an agent that came out of the constructor, the replay buffer
    never holds more transitions than the capacity given to the
    constructor, and the reward window never more than 100 entries,
    after any training run that returns. *)
Theorem trained_buffers_within_capacity (args : init_args) (w : World)
  (episodes steps_per_episode batch_size : Z) (s s' : Sys) :
  __init__ args w = Ok s ->
  train_agent episodes steps_per_episode batch_size s = Ok (tt, s') ->
  Deque.len (experience_replay (self s'))
  <= arg_experience_replay_size args
  /\ Deque.len (_last_100_rewards (self s')) <= 100.
Proof.
  intros Hinit Hrun.
  apply init_buffers in Hinit as (Hb & Hr & Hpos & _).
  apply train_keeps_frame in Hrun as [Hc Hbounded].
  destruct Hbounded as [[_ H1] [_ H2]].
  { unfold buffers_bounded. rewrite Hb, Hr.
    split; split; unfold Deque.len; simpl; lia. }
  unfold same_config in Hc.
  destruct Hc as (_ & _ & _ & _ & _ & _ & _ & _ & _ & _ & M1 & M2).
  rewrite M1, Hb in H1. rewrite M2, Hr in H2. simpl in H1, H2. auto.
Qed.

End TrainFrameTheorems.

(** ** Epsilon over a training run *)

Section TrainEpsilon.

Context {E : Externals}.

Lemma decay_iter_congr (a b : DQNAgent) (k : nat) :
  epsilon a = epsilon b -> min_epsilon a = min_epsilon b ->
  epsilon_decay a = epsilon_decay b ->
  epsilon (Nat.iter k decay_epsilon a)
  = epsilon (Nat.iter k decay_epsilon b).
Proof.
  intros He Hm Hd. induction k as [| k IH]; [exact He |].
  destruct (decay_iter_fields a k) as [Am Ad].
  destruct (decay_iter_fields b k) as [Bm Bd].
  simpl. now rewrite IH, Am, Ad, Bm, Bd, Hm, Hd.
Qed.

Lemma fit_count_none (p : event -> bool) (evs : list event) :
  (forall e, p e = true -> is_fit e = false) ->
  forallb p evs = true -> fit_count evs = 0%nat.
Proof.
  intros Hp H. unfold fit_count. now rewrite (filter_none p is_fit evs Hp H).
Qed.

Lemma sampling_is_no_fit (e : event) :
  is_sampling e = true -> is_fit e = false.
Proof. destruct e; simpl; congruence. Qed.

Lemma decayed_refl (s : Sys) : decayed_per_fit s s.
Proof. exists []. rewrite app_nil_r. auto. Qed.

Lemma decayed_trans (s1 s2 s3 : Sys) :
  decayed_per_fit s1 s2 -> decayed_per_fit s2 s3 -> decayed_per_fit s1 s3.
Proof.
  intros (e1 & L1 & M1 & D1 & E1) (e2 & L2 & M2 & D2 & E2).
  exists (e1 ++ e2).
  split; [now rewrite L2, L1, app_assoc |].
  split; [congruence |]. split; [congruence |].
  rewrite E2, fit_count_app, Nat.add_comm, Nat.iter_add.
  destruct (decay_iter_fields (self s1) (fit_count e1)) as [Fm Fd].
  apply decay_iter_congr; congruence.
Qed.

(** A transition that keeps the agent and logs no fit. *)
Lemma decayed_quiet (s s' : Sys) (evs : list event) :
  self s' = self s -> log s' = log s ++ evs -> fit_count evs = 0%nat ->
  decayed_per_fit s s'.
Proof.
  intros Hs Hl Hf. exists evs. rewrite Hs, Hf. auto.
Qed.

Lemma replay_decayed (bs n : Z) (s s' : Sys) :
  _replay bs n s = Ok (tt, s') -> decayed_per_fit s s'.
Proof.
  intros H. apply replay_shape in H as [[_ ->] | [_ H]].
  - apply decayed_refl.
  - destruct H as (ws & opt & evs & xs & ys & Hs & Hl & Hp).
    exists (evs ++ [EvFit xs ys bs (n + 1) n]).
    split; [exact Hl |]. rewrite Hs.
    split; [reflexivity |]. split; [reflexivity |].
    rewrite fit_count_app,
      (fit_count_none is_sampling evs sampling_is_no_fit Hp).
    reflexivity.
Qed.

Lemma train_decayed (episodes spe bs : Z) (s s' : Sys) :
  train_agent episodes spe bs s = Ok (tt, s') -> decayed_per_fit s s'.
Proof.
  apply train_agent_related.
  - apply decayed_refl.
  - apply decayed_trans.
  - intros v s0 t s1 H.
    apply act_shape in H as (Hs & _ & _ & e & Hl & He).
    apply decayed_quiet with (evs := [EvUniform; e; EvStep (t_action t)]);
      auto.
    destruct He as [-> | ->]; reflexivity.
  - intros t s0. exists []. unfold with_transition. cbn [self log].
    rewrite app_nil_r. simpl. auto.
  - intros n s0 s1. apply replay_decayed.
  - intros s0 s1 H. rewrite sync_target_run in H. inversion H.
    exists [EvSetWeights]. simpl. auto.
  - intros s0 x s1 H. unfold call in H.
    destruct (env_reset (world s0)). inversion H.
    apply decayed_quiet with (evs := [EvReset]); auto.
  - intros r i s0. exists [EvScalar r i]. simpl. auto.
Qed.

Lemma decay_iter_le (a : DQNAgent) (k : nat) :
  (0 <= epsilon_decay a)%Q -> (epsilon_decay a <= 1)%Q ->
  (min_epsilon a <= epsilon a)%Q -> (0 <= epsilon a)%Q ->
  (epsilon (Nat.iter k decay_epsilon a) <= epsilon a)%Q.
Proof.
  intros Hd0 Hd1 Hm H0. induction k as [| k IH]; [apply Qle_refl |].
  destruct (decay_iter_invariant a k Hd0 Hm) as [Im I0].
  destruct (decay_iter_fields a k) as [Fm Fd].
  apply Qle_trans with (epsilon (Nat.iter k decay_epsilon a));
    [| exact IH].
  change (Nat.iter (S k) decay_epsilon a)
    with (decay_epsilon (Nat.iter k decay_epsilon a)).
  apply decay_epsilon_le; [now rewrite Fd | now rewrite Fm | now apply I0].
Qed.

(** After a returned training run, epsilon is the initial epsilon with
    the decay assignment applied once for every [fit] call the run has
    made: epsilon decays per learning update, not per step or episode. *)
Theorem epsilon_decays_once_per_fit (episodes steps_per_episode
  batch_size : Z) (s s' : Sys) :
  train_agent episodes steps_per_episode batch_size s = Ok (tt, s') ->
  epsilon (self s')
  = epsilon (Nat.iter (fit_count (log s') - fit_count (log s))
                      decay_epsilon (self s)).
Proof.
  intros H. apply train_decayed in H as (evs & Hl & _ & _ & He).
  rewrite Hl, fit_count_app.
  replace (fit_count (log s) + fit_count evs - fit_count (log s))%nat
    with (fit_count evs) by lia.
  exact He.
Qed.

(** Over a whole training run, with [0 <= epsilon_decay <= 1] and
    [0 <= epsilon], [min_epsilon <= epsilon] at the start, epsilon ends
    between [min_epsilon] and its initial value. *)
Theorem epsilon_after_training_in_range (episodes steps_per_episode
  batch_size : Z) (s s' : Sys) :
  (0 <= epsilon_decay (self s))%Q -> (epsilon_decay (self s) <= 1)%Q ->
  (min_epsilon (self s) <= epsilon (self s))%Q ->
  (0 <= epsilon (self s))%Q ->
  train_agent episodes steps_per_episode batch_size s = Ok (tt, s') ->
  (min_epsilon (self s) <= epsilon (self s'))%Q
  /\ (epsilon (self s') <= epsilon (self s))%Q.
Proof.
  intros Hd0 Hd1 Hm H0 H.
  apply train_decayed in H as (evs & _ & _ & _ & ->).
  split.
  - now apply decay_iter_invariant.
  - now apply decay_iter_le.
Qed.

End TrainEpsilon.

(** ** A buffer no larger than the batch *)

Section SmallBuffer.

Context {E : Externals}.

Lemma fit_count_quiet (s s' : Sys) (evs : list event) :
  log s' = log s ++ evs -> fit_count evs = 0%nat ->
  fit_count (log s') = fit_count (log s).
Proof. intros -> H. rewrite fit_count_app, H. lia. Qed.

Lemma train_learns_nothing (episodes spe bs : Z) (s s' : Sys) :
  train_agent episodes spe bs s = Ok (tt, s') -> learns_nothing bs s s'.
Proof.
  apply train_agent_related; unfold learns_nothing.
  - auto.
  - intros s1 s2 s3 H1 H2 Hb Hm.
    destruct (H1 Hb Hm) as (B1 & M1 & F1 & E1 & Q1).
    destruct H2 as (B2 & M2 & F2 & E2 & Q2); [exact B1 | lia |].
    repeat split; try congruence; apply B2.
  - intros v s0 t s1 H Hb Hm.
    apply act_shape in H as (Hs & _ & _ & e & Hl & He).
    rewrite Hs. repeat split; try apply Hb.
    apply fit_count_quiet with (evs := [EvUniform; e; EvStep (t_action t)]);
      [exact Hl |].
    destruct He as [-> | ->]; reflexivity.
  - intros t s0 Hb Hm. unfold with_transition. cbn [self log]. simpl.
    rewrite append_maxlen.
    repeat split; try apply (append_bounded _ t Hb).
  - intros n s0 s1 H Hb Hm.
    apply replay_shape in H as [[_ ->] | [Hlen _]].
    + repeat split; apply Hb.
    + destruct Hb as [_ Hb]. lia.
  - intros s0 s1 H Hb Hm. rewrite sync_target_run in H. inversion H.
    cbn [self log]. simpl.
    repeat split; try apply Hb.
    rewrite fit_count_app. unfold fit_count at 2. simpl. lia.
  - intros s0 x s1 H Hb Hm. unfold call in H.
    destruct (env_reset (world s0)). inversion H. cbn [self log].
    repeat split; try apply Hb.
    rewrite fit_count_app. unfold fit_count at 2. simpl. lia.
  - intros r i s0 Hb Hm. cbn [self log]. simpl.
    repeat split; try apply Hb.
    rewrite fit_count_app. unfold fit_count at 2. simpl. lia.
Qed.

(** An agent constructed with a replay capacity not above the batch size
    never learns: whatever the length of the training run, no [fit] is
    issued, epsilon keeps the value given to the constructor and the
    online network is the one the constructor built. *)
Theorem capacity_not_above_batch_never_learns (args : init_args)
  (w : World) (episodes steps_per_episode batch_size : Z) (s s' : Sys) :
  arg_experience_replay_size args <= batch_size ->
  __init__ args w = Ok s ->
  train_agent episodes steps_per_episode batch_size s = Ok (tt, s') ->
  fit_count (log s') = 0%nat
  /\ epsilon (self s') = arg_epsilon args
  /\ q_value_model (self s') = q_value_model (self s).
Proof.
  intros Hcap Hinit Hrun.
  pose proof (init_buffers _ _ _ Hinit) as (Hb & _ & Hpos & Hlog).
  assert (Heps : epsilon (self s) = arg_epsilon args).
  { now destruct (init_stores args w s Hinit) as (He & _). }
  apply train_learns_nothing in Hrun.
  destruct Hrun as (_ & _ & Hf & He & Hq).
  - rewrite Hb. split; unfold Deque.len; simpl; lia.
  - now rewrite Hb.
  - rewrite Hf, Hlog, He, Heps. auto.
Qed.

End SmallBuffer.

(** ** The synchronisation counter *)

Section SyncLaws.

Context {E : Externals}.

(** With a synchronisation interval of 0 a non-terminal iteration whose
    learning update returns raises [ZeroDivisionError]: the modulo test
    is reached and divides by zero. *)
Theorem zero_sync_interval_raises (batch_size : Z) (v : locals)
  (s s1 s2 : Sys) (t : Transition) :
  steps_update_target_model (self s) = 0 ->
  act v s = Ok (t, s1) ->
  t_done t = false ->
  _replay batch_size (total_steps v) (with_transition t s1) = Ok (tt, s2) ->
  step_body batch_size v s = Raise ZeroDivisionError.
Proof.
  intros HN Hact Hdone Hrep.
  pose proof (act_shape _ _ _ _ Hact) as (Hs1 & _).
  pose proof (replay_keeps _ _ _ _ Hrep) as (_ & Hn & _).
  unfold with_transition in Hn. cbn [self] in Hn. simpl in Hn.
  rewrite Hs1, HN in Hn.
  unfold step_body, bind at 1. rewrite Hact.
  unfold bind at 1, store. rewrite Hdone.
  unfold bind at 1. rewrite Hrep.
  unfold bind at 1, sync_due, bind at 1, gets at 1. rewrite Hn.
  reflexivity.
Qed.


End SyncLaws.

(** From a counter value [c] between 1 and the interval [n], the counter
    climbs by one per non-terminal iteration and the modulo test first
    succeeds when it reads [n], that is [n - c] iterations later. From
    the initial value 1 the first synchronisation is in iteration [n];
    from the value 2 left by a synchronisation the next one comes
    [n - 1] iterations after it. *)
Theorem sync_schedule (n c : Z) (k : nat) :
  1 <= c <= n ->
  Z.of_nat k <= n - c ->
  Nat.iter k (next_counter n) c = c + Z.of_nat k
  /\ ((c + Z.of_nat k) mod n = 0 <-> Z.of_nat k = n - c).
Proof.
  intros Hc. induction k as [| k IH]; intros Hk.
  - simpl. split; [lia |].
    rewrite Z.add_0_r. split.
    + intros Hm. destruct (Z.eq_dec c n) as [-> | Hne]; [lia |].
      rewrite Z.mod_small in Hm by lia. lia.
    + intros H. replace c with n by lia. apply Z_mod_same_full.
  - destruct IH as [IHv IHm]; [lia |].
    split.
    + rewrite Nat.iter_succ, IHv. unfold next_counter.
      rewrite Z.mod_small by lia.
      replace (c + Z.of_nat k =? 0) with false
        by (symmetry; apply Z.eqb_neq; lia).
      lia.
    + split.
      * intros Hm.
        destruct (Z.eq_dec (c + Z.of_nat (S k)) n) as [Heq | Hne]; [lia |].
        rewrite Z.mod_small in Hm by lia. lia.
      * intros H. replace (c + Z.of_nat (S k)) with n by lia.
        apply Z_mod_same_full.
Qed.

(** ** What a training run logs *)

Section TrainLog.

Context {E : Externals}.

Lemma count_app (p : event -> bool) (l r : list event) :
  count p (l ++ r) = (count p l + count p r)%nat.
Proof. unfold count. now rewrite filter_app, length_app. Qed.

Lemma count_none (p q : event -> bool) (evs : list event) :
  (forall e, p e = true -> q e = false) ->
  forallb p evs = true -> count q evs = 0%nat.
Proof. intros Hpq H. unfold count. now rewrite (filter_none p q evs Hpq H). Qed.

Lemma scalar_steps_none (evs : list event) :
  forallb is_in_step evs = true -> scalar_steps evs = [].
Proof.
  induction evs as [| e evs IH]; [reflexivity |]. simpl.
  intros H. apply andb_true_iff in H as [He Hevs].
  unfold scalar_steps in *. simpl. rewrite (IH Hevs).
  destruct e; simpl in *; try reflexivity; discriminate.
Qed.

Lemma update_is_in_step (e : event) : is_update e = true -> is_in_step e = true.
Proof. destruct e; simpl; congruence. Qed.

Lemma update_is_no_step (e : event) : is_update e = true -> is_step e = false.
Proof. destruct e; simpl; congruence. Qed.

Lemma in_step_is_no_reset (e : event) :
  is_in_step e = true -> is_reset e = false.
Proof. destruct e; simpl; congruence. Qed.

Lemma forallb_weaken (p q : event -> bool) (evs : list event) :
  (forall e, p e = true -> q e = true) ->
  forallb p evs = true -> forallb q evs = true.
Proof.
  intros Hpq H. apply forallb_forall. intros e He. apply Hpq.
  rewrite forallb_forall in H. now apply H.
Qed.

Lemma step_body_log (bs : Z) (v v' : locals) (f : flow) (s s' : Sys) :
  step_body bs v s = Ok ((f, v'), s') ->
  exists evs,
    log s' = log s ++ evs
    /\ count is_step evs = 1%nat
    /\ forallb is_in_step evs = true.
Proof.
  intros H. apply step_body_shape in H as (t & s1 & Hact & Hcase).
  apply act_shape in Hact as (_ & _ & _ & e & Hl1 & He).
  assert (Hhead : count is_step [EvUniform; e; EvStep (t_action t)] = 1%nat
                  /\ forallb is_in_step [EvUniform; e; EvStep (t_action t)]
                     = true)
    by (destruct He as [-> | ->]; split; reflexivity).
  destruct Hhead as [Hc1 Hp1].
  destruct Hcase as [(_ & _ & -> & _) | (_ & _ & s2 & Hrep & _ & _ & Hsync)].
  - exists [EvUniform; e; EvStep (t_action t)]. auto.
  - apply replay_trace in Hrep as (e2 & Hl2 & Hp2).
    unfold with_transition in Hl2. cbn [log] in Hl2.
    destruct Hsync as [[_ Hs] | [_ ->]].
    + rewrite sync_target_run in Hs. inversion Hs. cbn [log].
      exists ([EvUniform; e; EvStep (t_action t)] ++ e2 ++ [EvSetWeights]).
      split; [rewrite Hl2, Hl1, <- !app_assoc; reflexivity |].
      split.
      * rewrite !count_app, Hc1,
          (count_none is_update is_step e2 update_is_no_step Hp2).
        reflexivity.
      * rewrite !forallb_app, Hp1,
          (forallb_weaken _ _ e2 update_is_in_step Hp2).
        reflexivity.
    + exists ([EvUniform; e; EvStep (t_action t)] ++ e2).
      split; [rewrite Hl2, Hl1, <- !app_assoc; reflexivity |].
      split.
      * rewrite count_app, Hc1,
          (count_none is_update is_step e2 update_is_no_step Hp2).
        reflexivity.
      * rewrite forallb_app, Hp1,
          (forallb_weaken _ _ e2 update_is_in_step Hp2).
        reflexivity.
Qed.

Lemma step_loop_log (bs : Z) (n : nat) :
  forall (v v' : locals) (s s' : Sys),
    step_loop n bs v s = Ok (v', s') ->
    exists evs,
      log s' = log s ++ evs
      /\ (count is_step evs <= n)%nat
      /\ forallb is_in_step evs = true.
Proof.
  induction n as [| n IH]; intros v v' s s' H.
  - inversion H. exists []. rewrite app_nil_r. simpl. auto.
  - cbn [step_loop] in H. unfold bind in H.
    destruct (step_body bs v s) as [[[f v1] s1] | e] eqn:Hb;
      [| discriminate].
    apply step_body_log in Hb as (e1 & Hl1 & Hc1 & Hp1).
    destruct f.
    + apply IH in H as (e2 & Hl2 & Hc2 & Hp2).
      exists (e1 ++ e2).
      split; [rewrite Hl2, Hl1, app_assoc; reflexivity |].
      split; [rewrite count_app; lia |].
      now rewrite forallb_app, Hp1, Hp2.
    + inversion H. subst. exists e1.
      split; [exact Hl1 |]. split; [lia | exact Hp1].
Qed.

Lemma episode_log (i spe bs c tot : Z) (r : Z * Z) (s s' : Sys) :
  episode i spe bs c tot s = Ok (r, s') ->
  exists body rw,
    log s' = log s ++ EvReset :: body ++ [EvScalar rw i]
    /\ forallb is_in_step body = true
    /\ (count is_step body <= Z.to_nat (spe - 1))%nat.
Proof.
  unfold episode, bind at 1, call.
  destruct (env_reset (world s)) as [x w1].
  unfold bind at 1.
  destruct (_correct_state_size x _) as [[x' s1] | e] eqn:Hc;
    [| discriminate].
  apply correct_state_size_ok in Hc as (-> & -> & _).
  unfold bind at 1.
  destruct (step_loop _ bs _ _) as [[v s2] | e] eqn:Hloop; [| discriminate].
  apply step_loop_log in Hloop as (evs & Hl & Hcount & Hp).
  cbn [log] in Hl.
  unfold bind, emit, modify, ret. cbn [self world log].
  intros H. inversion H. subst. cbn [log].
  exists evs, (reward_in_episode v).
  split; [| split; assumption].
  rewrite Hl, <- !app_assoc. reflexivity.
Qed.

Lemma episodes_loop_logged (spe bs : Z) (n : nat) :
  forall (i c tot : Z) (s s' : Sys),
    episodes_loop n i spe bs c tot s = Ok (tt, s') ->
    exists evs,
      log s' = log s ++ evs
      /\ episodes_logged (Z.to_nat (spe - 1)) i n evs.
Proof.
  induction n as [| n IH]; intros i c tot s s' H.
  - inversion H. exists []. rewrite app_nil_r. simpl. auto.
  - cbn [episodes_loop] in H. unfold bind in H.
    destruct (episode i spe bs c tot s) as [[[c1 t1] s1] | e] eqn:Hep;
      [| discriminate].
    apply episode_log in Hep as (body & rw & Hl1 & Hp1 & Hc1).
    apply IH in H as (rest & Hl2 & Hrest).
    exists (EvReset :: body ++ EvScalar rw i :: rest).
    split.
    + rewrite Hl2, Hl1, <- !app_assoc. simpl.
      rewrite <- !app_assoc. reflexivity.
    + cbn [episodes_logged]. exists body, rw, rest. auto.
Qed.

(** What [episodes_logged] says about the counts over the whole run. *)
Lemma episodes_logged_counts (cap : nat) (n : nat) :
  forall (i : Z) (evs : list event),
    episodes_logged cap i n evs ->
    scalar_steps evs = map (fun k => i + Z.of_nat k) (seq 0 n)
    /\ count is_reset evs = n
    /\ (count is_step evs <= n * cap)%nat.
Proof.
  induction n as [| n IH]; intros i evs H.
  - simpl in H. subst. simpl. auto.
  - cbn [episodes_logged] in H.
    destruct H as (body & rw & rest & -> & Hp & Hc & Hrest).
    apply IH in Hrest as (Hs & Hr & Hn).
    change (EvReset :: body ++ EvScalar rw i :: rest)
      with ([EvReset] ++ body ++ [EvScalar rw i] ++ rest).
    split; [| split].
    + unfold scalar_steps in *. rewrite !flat_map_app.
      fold (scalar_steps body). rewrite (scalar_steps_none body Hp), Hs.
      cbn [seq map app flat_map]. rewrite Z.add_0_r. f_equal.
      rewrite <- seq_shift, map_map.
      apply map_ext. intros k. lia.
    + rewrite !count_app,
        (count_none is_in_step is_reset body in_step_is_no_reset Hp), Hr.
      reflexivity.
    + rewrite !count_app. unfold count at 1 3. simpl. lia.
Qed.

(** A returned training run of [n] episodes logs [n] episodes one after
    the other, numbered 1, ..., n: each is one reset of the environment,
    then the events of its step loop with at most [steps_per_episode - 1]
    environment steps among them and no reset or reward report, then
    the one reward report under the episode's number. So there are
    exactly [n] resets and [n] reports, and at most
    [n * (steps_per_episode - 1)] environment steps in all. *)
Theorem train_log_shape (episodes steps_per_episode batch_size : Z)
  (s s' : Sys) :
  train_agent episodes steps_per_episode batch_size s = Ok (tt, s') ->
  exists evs,
    log s' = log s ++ evs
    /\ episodes_logged (Z.to_nat (steps_per_episode - 1)) 1
                       (Z.to_nat episodes) evs
    /\ scalar_steps evs
       = map (fun k => 1 + Z.of_nat k) (seq 0 (Z.to_nat episodes))
    /\ count is_reset evs = Z.to_nat episodes
    /\ (count is_step evs
        <= Z.to_nat episodes * Z.to_nat (steps_per_episode - 1))%nat.
Proof.
  unfold train_agent. intros H.
  apply episodes_loop_logged in H as (evs & Hl & Hlogged).
  exists evs. split; [exact Hl |]. split; [exact Hlogged |].
  now apply episodes_logged_counts.
Qed.

End TrainLog.

(** ** More on sampling and on the update *)

Section SamplingMore.

Context {E : Externals}.

(** Sampling takes a part of the buffer: the batch together with some
    rest is a rearrangement of the stored transitions, with every stored
    occurrence used at most once. Sampling as many as are stored returns
    a rearrangement of the whole buffer, and sampling none returns the
    empty batch. *)
Theorem sample_batch_is_part_of_buffer (batch_size : Z) (s : Sys) :
  0 <= batch_size <= Deque.len (experience_replay (self s)) ->
  exists batch rest s',
    _sample_batch batch_size s = Ok (batch, s')
    /\ Z.of_nat (length batch) = batch_size
    /\ Permutation (batch ++ rest)
                   (Deque.items (experience_replay (self s)))
    /\ (batch_size = Deque.len (experience_replay (self s)) -> rest = [])
    /\ (batch_size = 0 -> batch = []).
Proof.
  unfold Deque.len. intros Hk.
  unfold _sample_batch, bind at 1, gets, random_sample.
  replace ((batch_size <? 0)
           || (Z.of_nat (length (Deque.items (experience_replay (self s))))
               <? batch_size)) with false.
  2:{ symmetry. apply orb_false_iff. split; apply Z.ltb_ge; lia. }
  unfold bind, emit.
  destruct (sample_pool_spec (Z.to_nat batch_size)
              (Deque.items (experience_replay (self s)))
              (mkSys (self s) (world s) (log s ++ [EvRandomSample batch_size])))
    as (batch & rest & s' & Hrun & _ & _ & Hlen & Hperm); [lia |].
  exists batch, rest, s'.
  split; [exact Hrun |]. split; [lia |]. split; [exact Hperm |].
  apply Permutation_length in Hperm. rewrite length_app in Hperm.
  split.
  - intros Heq. destruct rest; [reflexivity | simpl in Hperm; lia].
  - intros Heq. destruct batch; [reflexivity | simpl in Hlen; lia].
Qed.

(** A negative batch size makes every learning update raise
    [ValueError], whatever the buffer holds: the warm-up guard lets it
    through and [random.sample] rejects it. *)
Theorem replay_negative_batch_raises (batch_size step_number : Z)
  (s : Sys) :
  batch_size < 0 ->
  _replay batch_size step_number s = Raise ValueError.
Proof.
  intros Hneg. unfold _replay, bind at 1, gets at 1.
  replace (Deque.len (experience_replay (self s)) <=? batch_size)
    with false by (symmetry; apply Z.leb_gt; unfold Deque.len; lia).
  unfold bind at 1. now rewrite sample_batch_negative.
Qed.

Lemma agent_eta (a : DQNAgent) :
  set_epsilon (epsilon a)
    (set_q_value_model
       (mkSequential (layers (q_value_model a)) (weights (q_value_model a))
                     (optimizer (q_value_model a))) a)
  = a.
Proof. destruct a as [? ? ? ? ? ? ? ? ? ? [? ? ?] ? ?]. reflexivity. Qed.

(** A learning update that returns has changed nothing of the agent but
    epsilon and the weights and optimiser state of the online network:
    the replay buffer, the target network, the reward window, both
    architectures and every hyper-parameter are as before. *)
Theorem replay_touches_only_online_and_epsilon (batch_size
  step_number : Z) (s s' : Sys) :
  _replay batch_size step_number s = Ok (tt, s') ->
  exists eps ws opt,
    self s'
    = set_epsilon eps
        (set_q_value_model
           (mkSequential (layers (q_value_model (self s))) ws opt)
           (self s)).
Proof.
  intros H. apply replay_shape in H as [[_ ->] | [_ H]].
  - exists (epsilon (self s)), (weights (q_value_model (self s))),
      (optimizer (q_value_model (self s))).
    symmetry. apply agent_eta.
  - destruct H as (ws & opt & _ & _ & _ & Hs & _).
    rewrite Hs. unfold decay_epsilon. eauto.
Qed.

Lemma replay_loop_queries (mb : list Transition) :
  forall (xs ys : list (list Q)) (s s' : Sys) r,
    replay_loop mb xs ys s = Ok (r, s') ->
    exists evs,
      log s' = log s ++ evs
      /\ count is_online_predict evs = length mb
      /\ count is_target_predict evs
         = length (filter (fun t => negb (t_done t)) mb).
Proof.
  induction mb as [| t rest IH]; intros xs ys s s' r H.
  - inversion H. exists []. rewrite app_nil_r. auto.
  - rewrite replay_loop_cons in H. rewrite td_target_run in H.
    simpl. destruct (t_done t); simpl.
    + destruct (np_setitem _ _ _) as [row | e]; [| discriminate].
      apply IH in H as (evs & Hl & Ho & Ht). cbn [logged log] in Hl.
      exists ([EvPredict Online (t_state t)] ++ evs).
      split; [rewrite Hl, <- app_assoc; reflexivity |].
      rewrite !count_app, Ho, Ht. split; reflexivity.
    + destruct (np_max _) as [m | e]; [| discriminate].
      destruct (np_setitem _ _ _) as [row | e]; [| discriminate].
      apply IH in H as (evs & Hl & Ho & Ht). cbn [logged log] in Hl.
      exists ([EvPredict Target (t_next_state t);
               EvPredict Online (t_state t)] ++ evs).
      split; [rewrite Hl, <- !app_assoc; reflexivity |].
      rewrite !count_app, Ho, Ht. split; reflexivity.
Qed.

(** The loop over a minibatch queries the online network once per
    transition and the target network once per non-terminal transition:
    a terminal transition never reaches the target network. *)
Theorem replay_loop_prediction_counts (minibatch : list Transition)
  (s s' : Sys) (r : list (list Q) * list (list Q)) :
  replay_loop minibatch [] [] s = Ok (r, s') ->
  exists evs,
    log s' = log s ++ evs
    /\ count is_online_predict evs = length minibatch
    /\ count is_target_predict evs
       = length (filter (fun t => negb (t_done t)) minibatch).
Proof. apply replay_loop_queries. Qed.

End SamplingMore.

(** ** Testing the trained agent *)

Section TestFacts.

Context {E : Externals} {D : Display}.

Lemma test_body_ok (x nx : list Q) (dn : bool) (s s' : Sys) :
  test_body x s = Ok ((nx, dn), s') ->
  self s' = self s
  /\ extends is_test_event s s'
  /\ exists a,
       np_argmax (online_q (self s) x) = Ok a
       /\ dn = snd (fst (env_step a (world s))).
Proof.
  unfold test_body, _correct_state_size, predict, online_q.
  unfold bind, gets, emit, ret, lift, call, render, np_reshape_row.
  cbn [self world log].
  assert (Hshape :
            (if state_size (self s) =? -1 then Ok x
             else if Z.of_nat (length x) =? state_size (self s) then Ok x
                  else Raise ValueError)
            = Ok x
            \/ (if state_size (self s) =? -1 then Ok x
                else if Z.of_nat (length x) =? state_size (self s) then Ok x
                     else Raise ValueError)
               = Raise ValueError).
  { destruct (state_size (self s) =? -1); [now left |].
    destruct (Z.of_nat (length x) =? state_size (self s)); auto. }
  destruct Hshape as [-> | ->]; [| discriminate].
  cbn [self world log].
  destruct (np_argmax _) as [a | e]; [| discriminate].
  cbn [self world log].
  destruct (env_step a (world s)) as [[[nx0 r] dn0] w1] eqn:Hstep.
  cbn [self world log fst snd].
  intros H. inversion H. subst. cbn [self].
  split; [reflexivity |]. split.
  - exists [EvPredict Online x; EvStep a].
    split; [cbn [log]; now rewrite <- app_assoc | reflexivity].
  - exists a. split; [reflexivity | now rewrite Hstep].
Qed.

Lemma test_while_ok (fuel : nat) :
  forall (x : list Q) (s s' : Sys),
    test_while fuel x s = Some (Ok (tt, s')) ->
    self s' = self s /\ extends is_test_event s s'.
Proof.
  induction fuel as [| fuel IH]; intros x s s' H; [discriminate |].
  cbn [test_while] in H.
  destruct (test_body x s) as [[[nx dn] s1] | e] eqn:Hb; [| discriminate].
  apply test_body_ok in Hb as (Hs & Hext & _).
  destruct dn.
  - inversion H. subst. auto.
  - apply IH in H as [Hs' Hext'].
    split; [congruence | eapply extends_trans; eassumption].
Qed.

Lemma test_episodes_ok (fuel n : nat) :
  forall (s s' : Sys),
    test_episodes fuel n s = Some (Ok (tt, s')) ->
    self s' = self s /\ extends is_test_event s s'.
Proof.
  induction n as [| n IH]; intros s s' H.
  - inversion H. split; [reflexivity | apply extends_refl].
  - cbn [test_episodes] in H. unfold call in H.
    destruct (env_reset (world s)) as [x w1].
    destruct (test_while fuel x _) as [[[[] s2] | e] |] eqn:Hw;
      try discriminate.
    apply test_while_ok in Hw as [Hs2 Hext2]. cbn [self] in Hs2.
    apply IH in H as [Hs' Hext'].
    split; [congruence |].
    eapply extends_trans; [| exact Hext'].
    eapply extends_trans; [| exact Hext2].
    exists [EvReset]. split; reflexivity.
Qed.

(** A test run that returns has left the agent exactly as it was, and
    everything it logged is an environment reset, an online prediction
    or an environment step: no exploration draw, no sampling, no target
    prediction, no fit, no weight copy. *)
Theorem test_agent_only_acts_greedily (fuel : nat) (episodes : Z)
  (s s' : Sys) :
  test_agent fuel episodes s = Some (Ok (tt, s')) ->
  self s' = self s
  /\ exists evs,
       log s' = log s ++ evs /\ forallb is_test_event evs = true.
Proof.
  unfold test_agent.
  destruct (test_episodes fuel (Z.to_nat episodes) s)
    as [[[[] s1] | e] |] eqn:Hep; try discriminate.
  apply test_episodes_ok in Hep as [Hs Hext].
  unfold close. intros H. inversion H. subst. cbn [self log].
  split; [exact Hs | exact Hext].
Qed.

Lemma test_while_endless (fuel : nat) :
  (forall a w, snd (fst (env_step a w)) = false) ->
  forall (x : list Q) (s s' : Sys),
    test_while fuel x s <> Some (Ok (tt, s')).
Proof.
  intros Hnever. induction fuel as [| fuel IH]; intros x s s' H;
    [discriminate |].
  cbn [test_while] in H.
  destruct (test_body x s) as [[[nx dn] s1] | e] eqn:Hb; [| discriminate].
  apply test_body_ok in Hb as (_ & _ & a & _ & Hdn).
  rewrite Hnever in Hdn. subst dn. now apply IH in H.
Qed.

(** On an environment that never reports [done], a test run of at least
    one episode never returns normally, however many iterations it is
    given: it is still in its first [while] loop, or it has raised. *)
Theorem test_agent_hangs_without_done (fuel : nat) (episodes : Z)
  (s s' : Sys) :
  (forall a w, snd (fst (env_step a w)) = false) ->
  0 < episodes ->
  test_agent fuel episodes s <> Some (Ok (tt, s')).
Proof.
  intros Hnever Hpos. unfold test_agent.
  destruct (Z.to_nat episodes) as [| n] eqn:Hn; [lia |].
  cbn [test_episodes]. unfold call.
  destruct (env_reset (world s)) as [x w1].
  destruct (test_while fuel x _) as [[[[] s2] | e] |] eqn:Hw;
    try discriminate.
  exfalso. now apply (test_while_endless fuel Hnever) in Hw.
Qed.

End TestFacts.

(** ** Malformed observations, construction, the deque in general *)

Section Edges.

Context {E : Externals}.


(** The constructor gives the online and the target network the same
    layer stack: five layers, or seven when the depth selector is 5, the
    first reading [state_size] inputs and the last being the linear
    layer with one unit per action. The log of the new system is
    empty and its replay buffer holds nothing. *)
Theorem init_builds_twin_networks (args : init_args) (w : World)
  (s : Sys) :
  __init__ args w = Ok s ->
  layers (target_model (self s)) = layers (q_value_model (self s))
  /\ length (layers (q_value_model (self s)))
     = (if arg_num_layers args =? 5 then 7%nat else 5%nat)
  /\ hd_error (layers (q_value_model (self s)))
     = Some (mkDense 32 (Some observation_space_shape0) relu)
  /\ last (layers (q_value_model (self s))) hidden
     = mkDense action_space_n None linear
  /\ Deque.items (experience_replay (self s)) = []
  /\ log s = [].
Proof.
  unfold __init__.
  destruct (Deque.new (arg_experience_replay_size args)) as [d | e] eqn:Hd;
    [| discriminate].
  unfold _build_model, build_layers.
  destruct (initial_weights _ w) as [ws1 w1].
  destruct (initial_weights _ w1) as [ws2 w2].
  intros H. inversion H. subst. cbn [self log q_value_model target_model
    layers experience_replay].
  unfold Deque.new in Hd.
  destruct (arg_experience_replay_size args <? 0); inversion Hd.
  destruct (arg_num_layers args =? 5); simpl; repeat split.
Qed.

End Edges.

(** However a deque within its bound came about, appending [xs] leaves
    the last [maxlen] elements of its old contents followed by [xs] and
    keeps it within the bound; when old and new elements fit together,
    nothing is dropped. *)
Theorem deque_keeps_latest {A : Type} (d : Deque.deque A) (xs : list A) :
  bounded d ->
  Deque.items (Deque.extend d xs)
  = lastn (Z.to_nat (Deque.maxlen d)) (Deque.items d ++ xs)
  /\ bounded (Deque.extend d xs)
  /\ (Deque.len d + Z.of_nat (length xs) <= Deque.maxlen d ->
      Deque.items (Deque.extend d xs) = Deque.items d ++ xs).
Proof.
  intros Hb.
  split; [now apply extend_items |].
  split; [now apply extend_bounded |].
  intros Hfit. rewrite extend_items by assumption.
  apply lastn_all. rewrite length_app. unfold Deque.len in Hfit. lia.
Qed.

(** ** The further statements at concrete inputs *)

Section MoreExamples.

#[local] Existing Instance Toy.externals.
#[local] Existing Instance ToyDisplay.display.

Lemma train_keeps_configuration_witness :
  same_config
    (self (Toy.boot (Toy.args (1 # 4) (1 # 100) (995 # 1000) 2000 32) 3))
    (self ToyDisplay.trained).
Proof.
  apply (train_keeps_configuration 2 4 1
           (Toy.boot (Toy.args (1 # 4) (1 # 100) (995 # 1000) 2000 32) 3)
           ToyDisplay.trained).
  vm_compute. reflexivity.
Defined.

Lemma trained_buffers_within_capacity_witness :
  Deque.len (experience_replay (self ToyDisplay.trained))
  <= arg_experience_replay_size
       (Toy.args (1 # 4) (1 # 100) (995 # 1000) 2000 32)
  /\ Deque.len (_last_100_rewards (self ToyDisplay.trained)) <= 100.
Proof.
  apply (trained_buffers_within_capacity
           (Toy.args (1 # 4) (1 # 100) (995 # 1000) 2000 32) (Toy.start 3)
           2 4 1
           (Toy.boot (Toy.args (1 # 4) (1 # 100) (995 # 1000) 2000 32) 3)
           ToyDisplay.trained).
  - vm_compute. reflexivity.
  - vm_compute. reflexivity.
Defined.

Lemma epsilon_decays_once_per_fit_witness :
  epsilon (self ToyDisplay.trained)
  = epsilon
      (Nat.iter
         (fit_count (log ToyDisplay.trained)
          - fit_count
              (log (Toy.boot
                      (Toy.args (1 # 4) (1 # 100) (995 # 1000) 2000 32) 3)))
         decay_epsilon
         (self (Toy.boot
                  (Toy.args (1 # 4) (1 # 100) (995 # 1000) 2000 32) 3))).
Proof.
  apply (epsilon_decays_once_per_fit 2 4 1
           (Toy.boot (Toy.args (1 # 4) (1 # 100) (995 # 1000) 2000 32) 3)
           ToyDisplay.trained).
  vm_compute. reflexivity.
Defined.

Lemma epsilon_after_training_in_range_witness :
  (min_epsilon
     (self (Toy.boot (Toy.args (1 # 4) (1 # 100) (995 # 1000) 2000 32) 3))
   <= epsilon (self ToyDisplay.trained))%Q
  /\ (epsilon (self ToyDisplay.trained)
      <= epsilon
           (self (Toy.boot
                    (Toy.args (1 # 4) (1 # 100) (995 # 1000) 2000 32) 3)))%Q.
Proof.
  apply (epsilon_after_training_in_range 2 4 1
           (Toy.boot (Toy.args (1 # 4) (1 # 100) (995 # 1000) 2000 32) 3)
           ToyDisplay.trained).
  - vm_compute. discriminate.
  - vm_compute. discriminate.
  - vm_compute. discriminate.
  - vm_compute. discriminate.
  - vm_compute. reflexivity.
Defined.

Lemma capacity_not_above_batch_never_learns_witness :
  fit_count
    (log (Toy.after (Toy.args (1 # 4) (1 # 100) (995 # 1000) 2 32) 0 2 6 2))
  = 0%nat
  /\ epsilon
       (self (Toy.after (Toy.args (1 # 4) (1 # 100) (995 # 1000) 2 32)
                        0 2 6 2))
     = arg_epsilon (Toy.args (1 # 4) (1 # 100) (995 # 1000) 2 32)
  /\ q_value_model
       (self (Toy.after (Toy.args (1 # 4) (1 # 100) (995 # 1000) 2 32)
                        0 2 6 2))
     = q_value_model
         (self (Toy.boot (Toy.args (1 # 4) (1 # 100) (995 # 1000) 2 32) 0)).
Proof.
  apply (capacity_not_above_batch_never_learns
           (Toy.args (1 # 4) (1 # 100) (995 # 1000) 2 32) (Toy.start 0)
           2 6 2
           (Toy.boot (Toy.args (1 # 4) (1 # 100) (995 # 1000) 2 32) 0)
           (Toy.after (Toy.args (1 # 4) (1 # 100) (995 # 1000) 2 32)
                      0 2 6 2)).
  - vm_compute. discriminate.
  - vm_compute. reflexivity.
  - vm_compute. reflexivity.
Defined.

Lemma zero_sync_interval_raises_witness :
  step_body 2 Toy.first_locals ToyDisplay.zero_sync
  = Raise ZeroDivisionError.
Proof.
  apply (zero_sync_interval_raises 2 Toy.first_locals ToyDisplay.zero_sync
           (snd ToyDisplay.zero_acted)
           (with_transition (fst ToyDisplay.zero_acted)
                            (snd ToyDisplay.zero_acted))
           (fst ToyDisplay.zero_acted)).
  - vm_compute. reflexivity.
  - vm_compute. reflexivity.
  - vm_compute. reflexivity.
  - vm_compute. reflexivity.
Defined.


Lemma sync_schedule_witness :
  Nat.iter 30 (next_counter 32) 2 = 2 + Z.of_nat 30
  /\ ((2 + Z.of_nat 30) mod 32 = 0 <-> Z.of_nat 30 = 32 - 2).
Proof. apply (sync_schedule 32 2 30); simpl; lia. Defined.

Lemma train_log_shape_witness :
  exists evs,
    log ToyDisplay.trained
    = log (Toy.boot (Toy.args (1 # 4) (1 # 100) (995 # 1000) 2000 32) 3)
      ++ evs
    /\ episodes_logged (Z.to_nat (4 - 1)) 1 (Z.to_nat 2) evs
    /\ scalar_steps evs
       = map (fun k => 1 + Z.of_nat k) (seq 0 (Z.to_nat 2))
    /\ count is_reset evs = Z.to_nat 2
    /\ (count is_step evs <= Z.to_nat 2 * Z.to_nat (4 - 1))%nat.
Proof.
  apply (train_log_shape 2 4 1
           (Toy.boot (Toy.args (1 # 4) (1 # 100) (995 # 1000) 2000 32) 3)
           ToyDisplay.trained).
  vm_compute. reflexivity.
Defined.

Lemma sample_batch_is_part_of_buffer_witness :
  exists batch rest s',
    _sample_batch 3 Toy.warm = Ok (batch, s')
    /\ Z.of_nat (length batch) = 3
    /\ Permutation (batch ++ rest)
                   (Deque.items (experience_replay (self Toy.warm)))
    /\ (3 = Deque.len (experience_replay (self Toy.warm)) -> rest = [])
    /\ (3 = 0 -> batch = []).
Proof.
  apply (sample_batch_is_part_of_buffer 3 Toy.warm).
  vm_compute. split; discriminate.
Defined.

Lemma replay_negative_batch_raises_witness :
  _replay (-1) 7 Toy.warm = Raise ValueError.
Proof. apply (replay_negative_batch_raises (-1) 7 Toy.warm). lia. Defined.

Lemma replay_touches_only_online_and_epsilon_witness :
  exists eps ws opt,
    self Toy.replayed
    = set_epsilon eps
        (set_q_value_model
           (mkSequential (layers (q_value_model (self Toy.warm))) ws opt)
           (self Toy.warm)).
Proof.
  apply (replay_touches_only_online_and_epsilon 2 7 Toy.warm Toy.replayed).
  vm_compute. reflexivity.
Defined.

Lemma replay_loop_prediction_counts_witness :
  exists evs,
    log (snd ToyDisplay.looped) = log Toy.warm ++ evs
    /\ count is_online_predict evs
       = length (Deque.items (experience_replay (self Toy.warm)))
    /\ count is_target_predict evs
       = length (filter (fun t => negb (t_done t))
                        (Deque.items (experience_replay (self Toy.warm)))).
Proof.
  apply (replay_loop_prediction_counts
           (Deque.items (experience_replay (self Toy.warm)))
           Toy.warm (snd ToyDisplay.looped) (fst ToyDisplay.looped)).
  vm_compute. reflexivity.
Defined.

Lemma test_agent_only_acts_greedily_witness :
  self ToyDisplay.tested = self ToyDisplay.trained
  /\ exists evs,
       log ToyDisplay.tested = log ToyDisplay.trained ++ evs
       /\ forallb is_test_event evs = true.
Proof.
  apply (test_agent_only_acts_greedily 10 2 ToyDisplay.trained
           ToyDisplay.tested).
  vm_compute. reflexivity.
Defined.


Lemma init_builds_twin_networks_witness :
  layers (target_model (self (Toy.boot (Toy.args 1 1 1 5 32) 0)))
  = layers (q_value_model (self (Toy.boot (Toy.args 1 1 1 5 32) 0)))
  /\ length (layers (q_value_model
                       (self (Toy.boot (Toy.args 1 1 1 5 32) 0))))
     = (if arg_num_layers (Toy.args 1 1 1 5 32) =? 5
        then 7%nat else 5%nat)
  /\ hd_error (layers (q_value_model
                         (self (Toy.boot (Toy.args 1 1 1 5 32) 0))))
     = Some (mkDense 32 (Some observation_space_shape0) relu)
  /\ last (layers (q_value_model
                     (self (Toy.boot (Toy.args 1 1 1 5 32) 0)))) hidden
     = mkDense action_space_n None linear
  /\ Deque.items (experience_replay
                    (self (Toy.boot (Toy.args 1 1 1 5 32) 0))) = []
  /\ log (Toy.boot (Toy.args 1 1 1 5 32) 0) = [].
Proof.
  apply (init_builds_twin_networks (Toy.args 1 1 1 5 32) (Toy.start 0)
           (Toy.boot (Toy.args 1 1 1 5 32) 0)).
  vm_compute. reflexivity.
Defined.

Lemma deque_keeps_latest_witness :
  Deque.items (Deque.extend (Deque.mk 3 [1; 2]) [3; 4])
  = lastn (Z.to_nat (Deque.maxlen (Deque.mk 3 [1; 2])))
          (Deque.items (Deque.mk 3 [1; 2]) ++ [3; 4])
  /\ bounded (Deque.extend (Deque.mk 3 [1; 2]) [3; 4])
  /\ (Deque.len (Deque.mk 3 [1; 2]) + Z.of_nat (length [3; 4])
      <= Deque.maxlen (Deque.mk 3 [1; 2]) ->
      Deque.items (Deque.extend (Deque.mk 3 [1; 2]) [3; 4])
      = Deque.items (Deque.mk 3 [1; 2]) ++ [3; 4]).
Proof.
  apply (deque_keeps_latest (Deque.mk 3 [1; 2]) [3; 4]).
  unfold bounded, Deque.len. simpl. lia.
Defined.

End MoreExamples.

Section EndlessExamples.

#[local] Existing Instance Endless.externals.
#[local] Existing Instance Endless.display.

Lemma test_agent_hangs_without_done_witness :
  test_agent 7 1 Endless.fresh <> Some (Ok (tt, Endless.fresh)).
Proof.
  apply (test_agent_hangs_without_done 7 1 Endless.fresh Endless.fresh).
  - intros a w. reflexivity.
  - lia.
Defined.

End EndlessExamples.
